(** * arxindle: a shallow embedding of [arxindle.py] and its properties.

    The program fetches the source of an arXiv paper, rewrites its LaTeX
    with a fixed list of regular-expression substitutions and recompiles
    it.  Texts are modelled as lists of characters ([list ascii]); the
    Python [re] calls are modelled by a small backtracking matcher whose
    patterns are written constructor by constructor after the source's
    regular expressions.

    Modelling conventions.
    - Characters are bytes.  On the ASCII range the classes [\d], [\w],
      [\s] and [str.strip] agree with Python's; characters above 127 are
      taken to be outside all three classes.
    - An exception is a value of [exn]; a function that may raise returns
      a [result].
    - Effects (sub-processes, HTTP requests, file writes) are recorded in
      a trace of [event]s; what the outside world answers is read from an
      [Env] record. *)

From Stdlib Require Import List Ascii String Bool Arith Lia ZArith QArith.
From Stdlib Require Import DecimalString.
Import ListNotations.

Close Scope Q_scope.
Open Scope nat_scope.
Open Scope list_scope.

Set Implicit Arguments.

(** ** Texts *)

Definition str := list ascii.

Notation "$ s" := (list_ascii_of_string s) (at level 1, s at level 0, format "$ s").

Definition nl : ascii := "010"%char.

Definition ascii_in (lo hi : nat) (c : ascii) : bool :=
  (lo <=? nat_of_ascii c) && (nat_of_ascii c <=? hi).

(** [\d] *)
Definition is_digit (c : ascii) : bool := ascii_in 48 57 c.

(** [\w]: letters, digits and the underscore. *)
Definition is_word (c : ascii) : bool :=
  ascii_in 97 122 c || ascii_in 65 90 c || is_digit c || Ascii.eqb c "_".

(** [\s] and [str.isspace]: TAB, LF, VT, FF, CR, FS, GS, RS, US and the space. *)
Definition is_space (c : ascii) : bool :=
  ascii_in 9 13 c || ascii_in 28 31 c || Ascii.eqb c " ".

(** ASCII case folding, for [re.IGNORECASE]. *)
Definition lower (c : ascii) : ascii :=
  if ascii_in 65 90 c then ascii_of_nat (nat_of_ascii c + 32) else c.

(** [s.startswith(p)] *)
Fixpoint startswith (p s : str) : bool :=
  match p, s with
  | [], _ => true
  | x :: p', y :: s' => Ascii.eqb x y && startswith p' s'
  | _ :: _, [] => false
  end.

(** [p in s] *)
Fixpoint contains (p s : str) : bool :=
  startswith p s ||
  match s with
  | [] => false
  | _ :: s' => contains p s'
  end.

(** [s.lstrip()], [s.rstrip()], [s.strip()] *)
Fixpoint lstrip (s : str) : str :=
  match s with
  | c :: s' => if is_space c then lstrip s' else s
  | [] => []
  end.

Definition rstrip (s : str) : str := rev (lstrip (rev s)).

Definition strip (s : str) : str := rstrip (lstrip s).

(** [s.split(sep)] for a one-character separator: never the empty list. *)
Fixpoint split (sep : ascii) (s : str) : list str :=
  match s with
  | [] => [[]]
  | c :: s' =>
      if Ascii.eqb c sep then [] :: split sep s'
      else match split sep s' with
           | l :: ls => (c :: l) :: ls
           | [] => [[c]]
           end
  end.

(** [sep.join(ls)] *)
Fixpoint join (sep : str) (ls : list str) : str :=
  match ls with
  | [] => []
  | [l] => l
  | l :: ls' => l ++ sep ++ join sep ls'
  end.

(** [l.insert(i, x)] for [0 <= i]: past the end it appends. *)
Definition insert (A : Type) (i : nat) (x : A) (l : list A) : list A :=
  firstn i l ++ x :: skipn i l.

(** [s[1:-1]] *)
Definition slice_1_m1 (s : str) : str := removelast (tl s).

(** ** Exceptions and results *)

(** The exceptions that the program raises or lets through.
    [OSError_Open]: [open(path, "wb")] fails; [OSError_Stream]: the
    download breaks or the writing fails while the body is written into
    the file, with an exception of [requests] or an [OSError] of
    [f.write]; [ExtractError]: [tarfile.open] or [extractall] fails with
    something other than [ReadError].  [handled] tells whether the
    exception is of a class that [main] catches. *)
Inductive exn : Type :=
| ValueError_InvalidId (input : str)
| ValueError_NoTitle
| ValueError_BeginDocument (found : nat)
| SystemError_NoPdflatex
| SystemError_NoPdftk
| FileNotFoundError_NoMainTex
| FileNotFoundError_NoPdf
| FileNotFoundError_NoExecutable (prog : str)
| IndexError
| HTTPError (url : str)
| ReadError
| OSError_Open (path : str) (handled : bool)
| OSError_Stream (url : str)
| ExtractError (handled : bool).

Inductive result (A : Type) : Type :=
| Ok (a : A)
| Raise (e : exn).

Arguments Ok {A} a.
Arguments Raise {A} e.

(** ** Regular expressions

    The fragment of Python's [re] syntax that the program uses.  A
    repetition is always over a single-character class in the source, and
    is greedy; an optional group [(r)?] is [Alt r Eps]. *)

Module Re.

Inductive regex : Type :=
| Eps
| Cls (p : ascii -> bool)
| Seq (r1 r2 : regex)
| Alt (r1 r2 : regex)
| Rep (lo : nat) (hi : option nat) (p : ascii -> bool)
| Grp (n : nat) (r : regex)
| WordB
| Bol
| Behind (p : ascii -> bool)
| Ahead (p : ascii -> bool).

Definition Lit (c : ascii) : regex := Cls (Ascii.eqb c).
Definition LitI (c : ascii) : regex := Cls (fun x => Ascii.eqb (lower x) (lower c)).

Fixpoint Str (s : str) : regex :=
  match s with
  | [] => Eps
  | [c] => Lit c
  | c :: s' => Seq (Lit c) (Str s')
  end.

Fixpoint StrI (s : str) : regex :=
  match s with
  | [] => Eps
  | [c] => LitI c
  | c :: s' => Seq (LitI c) (StrI s')
  end.

Definition Opt (r : regex) : regex := Alt r Eps.
Definition Star (p : ascii -> bool) : regex := Rep 0 None p.
Definition Plus (p : ascii -> bool) : regex := Rep 1 None p.
Definition Times (lo hi : nat) (p : ascii -> bool) : regex := Rep lo (Some hi) p.

Definition one_of (s : str) (c : ascii) : bool := existsb (Ascii.eqb c) s.
Definition none_of (s : str) (c : ascii) : bool := negb (one_of s c).

(** The captured groups: group number to captured text ([None]: the group
    did not take part in the match). *)
Definition caps := nat -> option str.

Definition no_caps : caps := fun _ => None.

Definition set_cap (n : nat) (v : str) (c : caps) : caps :=
  fun m => if Nat.eqb m n then Some v else c m.

(** A position in the subject: the character before it (for [\b], [^] and
    look-behind) and the text from it on. *)
Definition cont (R : Type) := option ascii -> str -> caps -> option R.

Definition orelse (R : Type) (a b : option R) : option R :=
  match a with
  | Some r => Some r
  | None => b
  end.

Definition may_more (hi : option nat) : bool :=
  match hi with
  | Some 0 => false
  | _ => true
  end.

Definition less (hi : option nat) : option nat := option_map pred hi.

(** Greedy repetition of a class: take a character while the class and the
    upper bound allow, and give characters back one by one when the rest of
    the pattern fails. *)
Fixpoint rep (R : Type) (p : ascii -> bool) (lo : nat) (hi : option nat)
    (prev : option ascii) (s : str) (cs : caps) (k : cont R) : option R :=
  let stop := match lo with
              | 0 => k prev s cs
              | S _ => None
              end in
  match s with
  | c :: s' =>
      if p c && may_more hi
      then orelse (rep p (pred lo) (less hi) (Some c) s' cs k) stop
      else stop
  | [] => stop
  end.

Definition word_prev (prev : option ascii) : bool :=
  match prev with
  | Some c => is_word c
  | None => false
  end.

Definition word_next (s : str) : bool :=
  match s with
  | c :: _ => is_word c
  | [] => false
  end.

(** [m r prev s cs k]: match [r] at the position [(prev, s)] and hand the
    position after it to [k]; [None] when no way of matching [r] makes [k]
    succeed.  Alternatives are tried in Python's order. *)
Fixpoint m (R : Type) (r : regex) (prev : option ascii) (s : str) (cs : caps)
    (k : cont R) : option R :=
  match r with
  | Eps => k prev s cs
  | Cls p =>
      match s with
      | c :: s' => if p c then k (Some c) s' cs else None
      | [] => None
      end
  | Seq r1 r2 => m r1 prev s cs (fun prev' s' cs' => m r2 prev' s' cs' k)
  | Alt r1 r2 => orelse (m r1 prev s cs k) (m r2 prev s cs k)
  | Rep lo hi p => rep p lo hi prev s cs k
  | Grp n r1 =>
      m r1 prev s cs
        (fun prev' s' cs' =>
           k prev' s' (set_cap n (firstn (List.length s - List.length s') s) cs'))
  | WordB => if xorb (word_prev prev) (word_next s) then k prev s cs else None
  | Bol => match prev with
           | None => k prev s cs
           | Some _ => None
           end
  | Behind p =>
      match prev with
      | Some c => if p c then k prev s cs else None
      | None => None
      end
  | Ahead p =>
      match s with
      | c :: _ => if p c then k prev s cs else None
      | [] => None
      end
  end.

(** A match object: the groups and the text after the match. *)
Definition match_at (r : regex) (prev : option ascii) (s : str) : option (caps * str) :=
  m r prev s no_caps (fun _ s' cs => Some (cs, s')).

(** [pattern.search(s)]: the leftmost position with a match. *)
Fixpoint search_from (r : regex) (prev : option ascii) (s : str) : option (caps * str) :=
  orelse (match_at r prev s)
    match s with
    | c :: s' => search_from r (Some c) s'
    | [] => None
    end.

Definition search (r : regex) (s : str) : option (caps * str) := search_from r None s.

(** [re.sub(pattern, repl, s)]: scan from the left; at a match emit the
    replacement and go on after the match, else copy one character.
    [skip] counts the characters of the subject still inside the last
    match.  After an empty match the next character is copied. *)
Fixpoint sub_from (r : regex) (repl : caps -> str) (prev : option ascii)
    (s : str) (skip : nat) : str :=
  match skip, s with
  | S n, c :: s' => sub_from r repl (Some c) s' n
  | S _, [] => []
  | 0, _ =>
      match match_at r prev s with
      | Some (cs, rest) =>
          let len := List.length s - List.length rest in
          repl cs ++
          match s with
          | c :: s' =>
              (if Nat.eqb len 0 then [c] else []) ++
              sub_from r repl (Some c) s' (pred len)
          | [] => []
          end
      | None =>
          match s with
          | c :: s' => c :: sub_from r repl (Some c) s' 0
          | [] => []
          end
      end
  end.

Definition sub (r : regex) (repl : caps -> str) (s : str) : str :=
  sub_from r repl None s 0.

(** [m.group(n)] as a text, for a replacement template's [\n]. *)
Definition group (cs : caps) (n : nat) : str :=
  match cs n with
  | Some g => g
  | None => []
  end.

End Re.

Import Re.

(** ** The identifier parser *)

(** [ARXIV_ID_PATTERN], in verbose mode: the blanks and comments of the
    pattern are not part of it.  First the optional URL prefix
    [(?:https?://(?:www\.)?arxiv\.org/(?:abs|pdf|e-print)/)?]. *)
Definition URL_PREFIX : regex :=
  Seq (Str $"http")
  (Seq (Opt (Lit "s"))
  (Seq (Str $"://")
  (Seq (Opt (Str $"www."))
  (Seq (Str $"arxiv.org/")
  (Seq (Alt (Str $"abs") (Alt (Str $"pdf") (Str $"e-print")))
       (Lit "/")))))).

(** Then the id, [\d{4}\.\d{4,5}(?:v\d{1,2})?]. *)
Definition ID : regex :=
  Seq (Times 4 4 is_digit)
  (Seq (Lit ".")
  (Seq (Times 4 5 is_digit)
       (Opt (Seq (Lit "v") (Times 1 2 is_digit))))).

(** The named group [id] is group 1. *)
Definition ARXIV_ID_PATTERN : regex :=
  Seq (Opt URL_PREFIX) (Grp 1 ID).

Definition parse_arxiv_id (url_or_id : str) : result str :=
  match search ARXIV_ID_PATTERN (strip url_or_id) with
  | None => Raise (ValueError_InvalidId url_or_id)
  | Some (cs, _) => Ok (group cs 1)
  end.

(** ** The markup rewriter: patterns *)

(** [\[[^\]]*\]] *)
Definition bracketed : regex :=
  Seq (Lit "[") (Seq (Star (none_of $"]")) (Lit "]")).

(** [\{[^}]*\}] *)
Definition braced : regex :=
  Seq (Lit "{") (Seq (Star (none_of $"}")) (Lit "}")).

(** [\\usepackage(\[[^\]]*\])?\{geometry\}] *)
Definition USEPACKAGE_GEOMETRY : regex :=
  Seq (Str $"\usepackage") (Seq (Opt (Grp 1 bracketed)) (Str $"{geometry}")).

(** [\\newgeometry\s*\{[^}]*\}] *)
Definition NEWGEOMETRY : regex :=
  Seq (Str $"\newgeometry") (Seq (Star is_space) braced).

(** [\\geometry\s*\{[^}]*\}] *)
Definition GEOMETRY : regex :=
  Seq (Str $"\geometry") (Seq (Star is_space) braced).

(** [\\RequirePackage(\[[^\]]*\])?\{geometry\}] *)
Definition REQUIREPACKAGE_GEOMETRY : regex :=
  Seq (Str $"\RequirePackage") (Seq (Opt (Grp 1 bracketed)) (Str $"{geometry}")).

(** [\\twocolumn(\s*\[[^\]]*\])?] *)
Definition TWOCOLUMN : regex :=
  Seq (Str $"\twocolumn") (Opt (Grp 1 (Seq (Star is_space) bracketed))).

(** [(\\@ifpackageloaded\{geometry\})] *)
Definition IFPACKAGELOADED : regex :=
  Grp 1 (Str $"\@ifpackageloaded{geometry}").

(** [(\\PackageError\{[^}]*\}\{[^}]*geometry[^}]*\}\{[^}]*\})] with
    [re.IGNORECASE] *)
Definition PACKAGEERROR : regex :=
  Grp 1
    (Seq (StrI $"\PackageError")
    (Seq braced
    (Seq (Lit "{")
    (Seq (Star (none_of $"}"))
    (Seq (StrI $"geometry")
    (Seq (Star (none_of $"}"))
    (Seq (Lit "}") braced))))))).

(** [\b\d+pt\b] *)
Definition POINT_SIZE : regex :=
  Seq WordB (Seq (Plus is_digit) (Seq (Str $"pt") WordB)).

(** [\b\w+column\b] *)
Definition COLUMN : regex :=
  Seq WordB (Seq (Plus is_word) (Seq (Str $"column") WordB)).

(** [\b\w+paper\b] *)
Definition PAPER : regex :=
  Seq WordB (Seq (Plus is_word) (Seq (Str $"paper") WordB)).

(** [(?<=\[),] *)
Definition STARTING_COMMA : regex :=
  Seq (Behind (Ascii.eqb "[")) (Lit ",").

(** [,(?=[\],])] *)
Definition TRAILING_COMMA : regex :=
  Seq (Lit ",") (Ahead (one_of $"],")).

(** [\\documentclass\s*\[], and the same in a group. *)
Definition DOCUMENTCLASS_OPTS : regex :=
  Seq (Str $"\documentclass") (Seq (Star is_space) (Lit "[")).

Definition DOCUMENTCLASS_OPTS_G : regex := Grp 1 DOCUMENTCLASS_OPTS.

(** [(\\documentclass)\s*(\{)] *)
Definition DOCUMENTCLASS_BARE : regex :=
  Seq (Grp 1 (Str $"\documentclass")) (Seq (Star is_space) (Grp 2 (Lit "{"))).

(** [\\includegraphics\[width=([.\d]+)\\(line|text)width\]] *)
Definition INCLUDEGRAPHICS : regex :=
  Seq (Str $"\includegraphics[width=")
  (Seq (Grp 1 (Plus (fun c => Ascii.eqb c "." || is_digit c)))
  (Seq (Lit "\")
  (Seq (Grp 2 (Alt (Str $"line") (Str $"text")))
       (Str $"width]")))).

(** [<title>([^<]+)</title>] *)
Definition TITLE : regex :=
  Seq (Str $"<title>") (Seq (Grp 1 (Plus (none_of $"<"))) (Str $"</title>")).

(** [^\[[^\]]+\]\s*] *)
Definition TITLE_PREFIX : regex :=
  Seq Bol (Seq (Lit "[") (Seq (Plus (none_of $"]")) (Seq (Lit "]") (Star is_space)))).

(** [\s+] *)
Definition BLANKS : regex := Plus is_space.

(** ** The markup rewriter: style files (Pass A) *)

Definition const (s : str) : caps -> str := fun _ => s.

(** The template [r"% \1"]. *)
Definition commented : caps -> str := fun cs => $"% " ++ group cs 1.

(** Python's truth value of [m.group(n)]: a group that took part in the
    match and is not empty. *)
Definition group_true (cs : caps) (n : nat) : option str :=
  match cs n with
  | Some (c :: g) => Some (c :: g)
  | _ => None
  end.

(** [replace_twocolumn] of the style-file loop. *)
Definition replace_twocolumn (cs : caps) : str :=
  match group_true cs 1 with
  | Some g => $"\onecolumn " ++ slice_1_m1 g
  | None => $"\onecolumn"
  end.

(** The body of the loop over [*.sty] and [*.cls]: [sty_content] after the
    seven substitutions. *)
Definition rewrite_sty (sty_content : str) : str :=
  let sty_content := sub USEPACKAGE_GEOMETRY (const $"% geometry disabled by arxindle") sty_content in
  let sty_content := sub NEWGEOMETRY (const $"% newgeometry disabled by arxindle") sty_content in
  let sty_content := sub GEOMETRY (const $"% geometry disabled by arxindle") sty_content in
  let sty_content := sub REQUIREPACKAGE_GEOMETRY (const $"% geometry disabled by arxindle") sty_content in
  let sty_content := sub TWOCOLUMN replace_twocolumn sty_content in
  let sty_content := sub IFPACKAGELOADED commented sty_content in
  let sty_content := sub PACKAGEERROR commented sty_content in
  sty_content.

(** ** The markup rewriter: the main document (Pass B) *)

Definition BEGIN_DOCUMENT : str := $"\begin{document}".

(** [not line.startswith("%") and line.strip()] *)
Definition keep_line (line : str) : bool :=
  negb (startswith $"%" line) &&
  match strip line with
  | [] => false
  | _ :: _ => true
  end.

(** Lines 200 to 211: the rewriting of [src[0]]. *)
Definition strip_options (l : str) : str :=
  let l := sub POINT_SIZE (const []) l in
  let l := sub COLUMN (const []) l in
  let l := sub PAPER (const []) l in
  let l := sub STARTING_COMMA (const []) l in
  let l := sub TRAILING_COMMA (const []) l in
  l.

Definition add_onecolumn (l : str) : str :=
  match search DOCUMENTCLASS_OPTS l with
  | Some _ => sub DOCUMENTCLASS_OPTS_G (fun cs => group cs 1 ++ $"onecolumn,") l
  | None => sub DOCUMENTCLASS_BARE (fun cs => group cs 1 ++ $"[onecolumn]" ++ group cs 2) l
  end.

Definition rewrite_documentclass (l : str) : str := add_onecolumn (strip_options l).

(** [replace_twocolumn_tex] of the loop over the lines. *)
Definition replace_twocolumn_tex (cs : caps) : str :=
  match group_true cs 1 with
  | Some g => $"\onecolumn " ++ slice_1_m1 (strip g)
  | None => $"\onecolumn"
  end.

(** The body of the loop of lines 214 to 232. *)
Definition rewrite_line (l : str) : str :=
  let l := sub NEWGEOMETRY (const $"% newgeometry disabled by arxindle") l in
  sub TWOCOLUMN replace_twocolumn_tex l.

(** [[i for i, line in enumerate(src) if line.startswith(r"\begin{document}")]] *)
Fixpoint begindocs_from (i : nat) (src : list str) : list nat :=
  match src with
  | [] => []
  | line :: src' =>
      if startswith BEGIN_DOCUMENT line
      then i :: begindocs_from (S i) src'
      else begindocs_from (S i) src'
  end.

Definition begindocs (src : list str) : list nat := begindocs_from 0 src.

(** [",".join(f"{k}={v}" for k, v in geometric_settings.items())] *)
Definition geometry_str (geometric_settings : list (str * str)) : str :=
  join $"," (map (fun kv => fst kv ++ $"=" ++ snd kv) geometric_settings).

(** Lines 242 to 251: the insertions at [begindocs[0]]. *)
Definition insert_settings (is_landscape : bool) (geometric_settings : list (str * str))
    (i : nat) (src : list str) : list str :=
  let src := insert i ($"\geometry{" ++ geometry_str geometric_settings ++ $"}" ++ [nl]) src in
  let src := insert i
    ($"\makeatletter\@ifpackageloaded{geometry}{}{\usepackage{geometry}}\makeatother" ++ [nl]) src in
  let src := insert i ($"\usepackage{times}" ++ [nl]) src in
  let src := insert i ($"\pagestyle{empty}" ++ [nl]) src in
  if is_landscape then insert i ($"\usepackage{pdflscape}" ++ [nl]) src else src.

(** The replacement of line 257. *)
Definition scaled (cs : caps) : str :=
  $"\includegraphics[width=" ++ group cs 1 ++ $"\textwidth,height=" ++ group cs 1 ++
  $"\textheight,keepaspectratio]".

Definition scale_line (l : str) : str := sub INCLUDEGRAPHICS scaled l.

(** Lines 194 to 232 on the text of the main file: the lines kept, with
    [src[0]] and then every line rewritten.  [src[0]] of an empty list
    raises [IndexError]. *)
Definition rewritten_lines (text : str) : result (list str) :=
  match filter keep_line (split nl text) with
  | [] => Raise IndexError
  | l0 :: src => Ok (map rewrite_line (rewrite_documentclass l0 :: src))
  end.

(** Lines 194 to 263: the new text of the main file. *)
Definition rewrite_tex (is_landscape : bool) (geometric_settings : list (str * str))
    (text : str) : result str :=
  match rewritten_lines text with
  | Raise e => Raise e
  | Ok src =>
      match begindocs src with
      | [i] =>
          let src := insert_settings is_landscape geometric_settings i src in
          Ok (join [nl] (map scale_line src))
      | found => Raise (ValueError_BeginDocument (List.length found))
      end
  end.

(** Lines 182 to 190: the first candidate whose first line contains
    [documentclass]. *)
Definition first_line (text : str) : str := hd [] (split nl text).

Definition is_main (candidate : str * str) : bool :=
  contains $"documentclass" (first_line (snd candidate)).

Definition find_main (candidates : list (str * str)) : option (str * str) :=
  find is_main candidates.

(** ** Effects *)

(** What the program does to the outside world, in the order it does it.
    Log messages are left out.  [WriteFile name content]: the file is
    opened for writing and holds [content] when it is closed.  [Untar
    name]: [tarfile.open(name)] and [extractall] are called. *)
Inductive event : Type :=
| LogConfig (verbose : bool)
| Run (cmd : list str)
| HttpGet (url : str)
| MkTemp
| RmTemp
| WriteFile (name : str) (content : str)
| Untar (name : str)
| CopyFile (src dst : str).

Definition is_network (e : event) : bool :=
  match e with
  | HttpGet _ => true
  | _ => false
  end.

Definition is_fs_write (e : event) : bool :=
  match e with
  | MkTemp | RmTemp | WriteFile _ _ | Untar _ | CopyFile _ _ => true
  | _ => false
  end.

(** A computation: the events it caused, then its value or the exception
    that ended it. *)
Definition M (A : Type) : Type := list event * result A.

Definition ret (A : Type) (a : A) : M A := ([], Ok a).
Definition raise (A : Type) (e : exn) : M A := ([], Raise e).
Definition emit (e : event) : M unit := ([e], Ok tt).

Arguments raise {A} e.

Definition bind (A B : Type) (c : M A) (k : A -> M B) : M B :=
  match c with
  | (t, Ok a) => let (t', r) := k a in (t ++ t', r)
  | (t, Raise e) => (t, Raise e)
  end.

Definition lift (A : Type) (r : result A) : M A := ([], r).

Notation "x <- c ;; k" := (bind c (fun x => k))
  (at level 61, c at next level, right associativity).
Notation "c ;;; k" := (bind c (fun _ => k))
  (at level 61, right associativity).

(** The working directory after the archive is extracted: the style and
    class files ([*.sty] then [*.cls]) and the [*.tex] files, each as
    (name without extension for [*.tex], text), in [glob]'s order, and
    whether a [*.bib] or the [.bbl] file is there when [bibtex] is
    considered. *)
Record Extracted : Type := {
  sty_files : list (str * str);
  tex_files : list (str * str);
  bib_present : bool
}.

(** A float as [argparse]'s [type=float] may return it. *)
Inductive float : Type :=
| Finite (q : Q)
| Infinity (negative : bool)
| NaN.

(** [a < b] on floats. *)
Definition float_ltb (a b : float) : bool :=
  match a, b with
  | NaN, _ | _, NaN => false
  | Finite x, Finite y =>
      match Qcompare x y with
      | Lt => true
      | _ => false
      end
  | Finite _, Infinity negative => negb negative
  | Infinity negative, Finite _ => negative
  | Infinity n1, Infinity n2 => n1 && negb n2
  end.

(** What [tarfile.open(tar_path)] and [extractall(work_dir)] do with a
    file of a given content: they extract the files, or [tarfile.open]
    raises [ReadError] on a file that is not an archive, or one of the two
    raises another exception ([ExtractError]). *)
Inductive untar_result : Type :=
| Files (files : Extracted)
| NotAnArchive
| ExtractFails (handled : bool).

(** The parsed command line. *)
Record Args : Type := {
  url : str;
  output : str;
  width : Z;
  height : Z;
  margin : float;
  landscape : bool;
  verbose : bool
}.

(** The three ways [parser.parse_args(argv)] ends: with the namespace,
    with the help text and exit code 0 ([-h]), or in [parser.error] with
    the usage message and exit code 2. *)
Inductive parsed : Type :=
| Parsed (args : Args)
| Help
| UsageError.

(** The answers of the operating system, of the network and of the
    library functions that are not modelled.  Where a library call raises
    an exception whose class depends on the cause, [handled] tells whether
    it is a [ValueError], a [SystemError] or a [FileNotFoundError], the
    classes of [main]'s [except] clause. *)
Record Env : Type := {
  (** [parser.parse_args(argv)] *)
  parse_args : list str -> parsed;
  (** return code of [prog --version]; [None]: no such executable *)
  run_version : str -> option Z;
  (** text of a successful GET; [None]: the request or [raise_for_status] raises *)
  http_get : str -> option str;
  (** [requests.get(url, stream=True)] with [raise_for_status], and then
      the chunks of [iter_content] as they are written: [None]: the request
      or [raise_for_status] raises; [Some (data, true)]: the whole body
      [data] is written; [Some (data, false)]: [iter_content] or [f.write]
      raises after [data] is written *)
  http_stream : str -> option (str * bool);
  (** [open(path, "wb")]: [None]: the file is created; [Some handled]: it
      raises, a [FileNotFoundError] for a missing directory in the path or
      a [ValueError] for a NUL in it ([handled = true]), or another
      [OSError] *)
  open_wb : str -> option bool;
  (** [tarfile.open] and [extractall] on a file of the given content *)
  untar : str -> untar_result;
  (** whether the PDF of the main file exists after the compiler ran *)
  pdf_exists : str -> bool;
  (** [f"{x}"] of a float *)
  float_repr : float -> str;
  (** [Path(p).suffix] *)
  path_suffix : str -> str;
  (** [Path(p).with_suffix(s)] *)
  path_with_suffix : str -> str -> result str
}.

(** [f"{n}"] of an int. *)
Definition int_repr (n : Z) : str :=
  list_ascii_of_string (NilZero.string_of_int (Z.to_int n)).

Section Program.

Variable env : Env.

(** [check_prerequisite] *)
Definition version_check (prog : str) (missing : exn) : M unit :=
  emit (Run [prog; $"--version"]) ;;;
  match run_version env prog with
  | None => raise (FileNotFoundError_NoExecutable prog)
  | Some rc => if Z.eqb rc 0 then ret tt else raise missing
  end.

Definition check_prerequisite (is_landscape : bool) : M unit :=
  version_check $"pdflatex" SystemError_NoPdflatex ;;;
  if is_landscape then version_check $"pdftk" SystemError_NoPdftk else ret tt.

Definition get (url : str) : M str :=
  emit (HttpGet url) ;;;
  match http_get env url with
  | Some text => ret text
  | None => raise (HTTPError url)
  end.

(** [requests.get(url, stream=True)] and [raise_for_status]: the body is
    not read yet. *)
Definition get_stream (url : str) : M (str * bool) :=
  emit (HttpGet url) ;;;
  match http_stream env url with
  | Some response => ret response
  | None => raise (HTTPError url)
  end.

(** Lines 110 to 112: the file is opened, then the chunks are written into
    it as they arrive.  [WriteFile] carries what was written by the time
    the file is closed, also when the [with] block is left by an
    exception. *)
Definition save (url tar_path : str) (response : str * bool) : M str :=
  match open_wb env tar_path with
  | Some handled => raise (OSError_Open tar_path handled)
  | None =>
      emit (WriteFile tar_path (fst response)) ;;;
      if snd response then ret (fst response) else raise (OSError_Stream url)
  end.

(** Lines 115 to 116. *)
Definition extract (tar_path content : str) : M Extracted :=
  emit (Untar tar_path) ;;;
  match untar env content with
  | Files files => ret files
  | NotAnArchive => raise ReadError
  | ExtractFails handled => raise (ExtractError handled)
  end.

(** [download_source]: the id, the title and the extracted files. *)
Definition download_source (arxiv_url : str) : M (str * str * Extracted) :=
  arxiv_id <- lift (parse_arxiv_id arxiv_url) ;;
  let arxiv_abs := $"https://arxiv.org/abs/" ++ arxiv_id in
  text <- get arxiv_abs ;;
  match search TITLE text with
  | None => raise ValueError_NoTitle
  | Some (cs, _) =>
      let arxiv_pgtitle := group cs 1 in
      let arxiv_title := sub TITLE_PREFIX (const []) arxiv_pgtitle in
      let arxiv_title := strip (sub BLANKS (const $" ") arxiv_title) in
      let archive_url := $"https://arxiv.org/e-print/" ++ arxiv_id in
      let tar_path := arxiv_title ++ $".tar.gz" in
      response <- get_stream archive_url ;;
      content <- save archive_url tar_path response ;;
      files <- extract tar_path content ;;
      ret (arxiv_id, arxiv_title, files)
  end.

Fixpoint write_styles (files : list (str * str)) : M unit :=
  match files with
  | [] => ret tt
  | (name, sty_content) :: files' =>
      emit (WriteFile name (rewrite_sty sty_content)) ;;; write_styles files'
  end.

(** [_compile_latex] *)
Definition compile_latex (bib : bool) (texbase : str) : M unit :=
  let pdflatex_cmd := [$"pdflatex"; $"-interaction=nonstopmode"; texbase ++ $".tex"] in
  emit (Run pdflatex_cmd) ;;;
  (if bib then emit (Run [$"bibtex"; texbase]) else ret tt) ;;;
  emit (Run pdflatex_cmd) ;;;
  emit (Run pdflatex_cmd).

(** [process_tex]: the name of the PDF. *)
Definition process_tex (is_landscape : bool) (settings : list (str * str))
    (work_dir : Extracted) : M str :=
  write_styles (sty_files work_dir) ;;;
  match find_main (tex_files work_dir) with
  | None => raise FileNotFoundError_NoMainTex
  | Some (texbase, text) =>
      new_text <- lift (rewrite_tex is_landscape settings text) ;;
      emit (CopyFile (texbase ++ $".tex") (texbase ++ $".tex.bak")) ;;;
      emit (WriteFile (texbase ++ $".tex") new_text) ;;;
      compile_latex (bib_present work_dir) texbase ;;;
      if pdf_exists env texbase
      then ret (texbase ++ $".pdf")
      else raise FileNotFoundError_NoPdf
  end.

(** [with tempfile.TemporaryDirectory(...)]: the directory is removed on
    every way out. *)
Definition with_temp (A : Type) (body : M A) : M A :=
  let (t, r) := body in (MkTemp :: t ++ [RmTemp], r).

(** The dict [geometric_settings] of [convert], in insertion order. *)
Definition geometric_settings (width height : Z) (margin : float) : list (str * str) :=
  [ ($"paperwidth", int_repr width ++ $"in");
    ($"paperheight", int_repr height ++ $"in");
    ($"margin", float_repr env margin ++ $"in") ].

(** [convert] *)
Definition convert (arxiv_url : str) (is_landscape : bool)
    (output : str) (width height : Z) (margin : float) : M unit :=
  let (width, height) := if is_landscape then (height, width) else (width, height) in
  with_temp
    (downloaded <- download_source arxiv_url ;;
     pdf_file <- process_tex is_landscape (geometric_settings width height margin)
                   (snd downloaded) ;;
     emit (CopyFile pdf_file output)).

(** How the process ends: an exit code, or a traceback of an exception
    that [main] does not catch. *)
Inductive status : Type :=
| Exit (code : Z)
| Traceback (e : exn).

(** [except (ValueError, SystemError, FileNotFoundError)] *)
Definition caught (e : exn) : bool :=
  match e with
  | ValueError_InvalidId _ | ValueError_NoTitle | ValueError_BeginDocument _
  | SystemError_NoPdflatex | SystemError_NoPdftk
  | FileNotFoundError_NoMainTex | FileNotFoundError_NoPdf
  | FileNotFoundError_NoExecutable _ => true
  | IndexError | HTTPError _ | ReadError | OSError_Stream _ => false
  | OSError_Open _ handled | ExtractError handled => handled
  end.

(** [main], from [args = parser.parse_args(argv)] on.  [parser.error]
    exits with code 2. *)
Definition main (args : Args) : list event * status :=
  let t0 := [LogConfig (verbose args)] in
  if negb (float_ltb (Finite 0%Q) (margin args) && float_ltb (margin args) (Finite 1%Q))
  then (t0, Exit 2)
  else
    let suffixed :=
      match path_suffix env (output args) with
      | [] => path_with_suffix env (output args) $".pdf"
      | _ :: _ => Ok (output args)
      end in
    match suffixed with
    | Raise e => (t0, Traceback e)
    | Ok output_path =>
        let (t, r) :=
          check_prerequisite (landscape args) ;;;
          convert (url args) (landscape args) output_path
                  (width args) (height args) (margin args) in
        (t0 ++ t,
         match r with
         | Ok _ => Exit 0
         | Raise e => if caught e then Exit 1 else Traceback e
         end)
    end.

(** [main(argv)] from its first line: [parser.parse_args(argv)] ends the
    process itself, before anything else is done, or gives the arguments
    the rest of [main] runs on. *)
Definition main_argv (argv : list str) : list event * status :=
  match parse_args env argv with
  | Help => ([], Exit 0)
  | UsageError => ([], Exit 2)
  | Parsed args => main args
  end.

End Program.

(** * Definitions used in the statements *)

(** The character before the position reached after reading [a]. *)
Fixpoint after (a : str) (prev : option ascii) : option ascii :=
  match a with
  | [] => prev
  | c :: a' => after a' (Some c)
  end.

(** An upper bound of a repetition. *)
Definition within (hi : option nat) (n : nat) : Prop :=
  match hi with
  | Some h => n <= h
  | None => True
  end.

(** A text [X] after which the matches of [r] do not change: a match
    that starts before [X] ends before it, with the same replacement. *)
Definition local_before (r : regex) (repl : caps -> str) (X : str) : Prop :=
  forall prev c p,
    match match_at r prev (c :: p) with
    | Some (cs, rest) =>
        exists cs', match_at r prev (c :: p ++ X) = Some (cs', rest ++ X) /\
                    repl cs' = repl cs
    | None => match_at r prev (c :: p ++ X) = None
    end.

(** Patterns without [\b], [^] and look-behind do not see the character
    before the position. *)
Fixpoint prev_free (r : regex) : bool :=
  match r with
  | Eps | Cls _ | Rep _ _ _ | Ahead _ => true
  | Seq r1 r2 | Alt r1 r2 => prev_free r1 && prev_free r2
  | Grp _ r1 => prev_free r1
  | WordB | Bol | Behind _ => false
  end.

(** [[.\d]] *)
Definition frac_char (c : ascii) : bool := Ascii.eqb c "." || is_digit c.

(** [\includegraphics[width=F\<unit>width]] *)
Definition width_directive (F unit : str) : str :=
  $"\includegraphics[width=" ++ F ++ $"\" ++ unit ++ $"width]".

(** [\includegraphics[width=F\textwidth,height=F\textheight,keepaspectratio]] *)
Definition scaled_directive (F : str) : str :=
  $"\includegraphics[width=" ++ F ++ $"\textwidth,height=" ++ F ++
  $"\textheight,keepaspectratio]".

(** A decimal fraction as the pattern reads it: digits and dots, at least one. *)
Definition is_fraction (F : str) : Prop := F <> [] /\ forallb frac_char F = true.

Definition is_unit (u : str) : Prop := u = $"line" \/ u = $"text".

(** A text of digits. *)
Definition digits (s : str) : Prop := forallb is_digit s = true.

(** An identifier as the pattern reads one: four digits, a dot, four or
    five digits, and an optional version, [v] and one or two digits. *)
Definition valid_id (id : str) : Prop :=
  exists yymm num ver,
    id = yymm ++ $"." ++ num ++ ver /\
    List.length yymm = 4 /\ digits yymm /\
    4 <= List.length num <= 5 /\ digits num /\
    (ver = [] \/
     exists k, ver = "v"%char :: k /\ 1 <= List.length k <= 2 /\ digits k).

(** The ways an id is wrapped in a URL: with or without a scheme, with or
    without [www.], and one of the three paths; and no wrapping at all. *)
Definition url_wrappers : list str :=
  flat_map (fun scheme =>
    flat_map (fun www =>
      map (fun path => scheme ++ www ++ $"arxiv.org/" ++ path)
          [$"abs/"; $"pdf/"; $"e-print/"])
      [[]; $"www."])
    [[]; $"http://"; $"https://"].

(** The end of a match: the groups and the text left. *)
Definition final : cont (caps * str) := fun _ s cs => Some (cs, s).

(** No suffix of [M] begins with the two characters [a0 a1]. *)
Fixpoint never_begins (M : str) (a0 a1 : ascii) : bool :=
  match M with
  | [] => true
  | x :: M' =>
      (negb (Ascii.eqb x a0) ||
       match M' with
       | y :: _ => negb (Ascii.eqb y a1)
       | [] => false
       end) && never_begins M' a0 a1
  end.

(** The number of places of [s] where [p] occurs. *)
Fixpoint occurrences (p s : str) : nat :=
  match s with
  | [] => 0
  | _ :: s' => (if startswith p s then 1 else 0) + occurrences p s'
  end.

(** The lines of a text that are kept: neither comments nor blank. *)
Definition kept_lines (text : str) : list str := filter keep_line (split nl text).

Definition no_marker_at_start (line : str) : bool := negb (startswith BEGIN_DOCUMENT line).

(** The inserted lines in the order the specification lists them:
    landscape import, serif font, empty page style, conditional load of
    the geometry package, geometry settings. *)
Definition spec_inserted_lines (is_landscape : bool) (settings : list (str * str)) : list str :=
  (if is_landscape then [$"\usepackage{pdflscape}" ++ [nl]] else []) ++
  [ $"\usepackage{times}" ++ [nl];
    $"\pagestyle{empty}" ++ [nl];
    $"\makeatletter\@ifpackageloaded{geometry}{}{\usepackage{geometry}}\makeatother" ++ [nl];
    $"\geometry{" ++ geometry_str settings ++ $"}" ++ [nl] ].

(** The selection rule in the specification's words: the first line that
    is neither a comment nor blank carries a document-class declaration. *)
Definition spec_is_main (candidate : str * str) : bool :=
  contains $"\documentclass" (hd [] (kept_lines (snd candidate))).

Definition has_documentclass (candidate : str * str) : bool :=
  contains $"documentclass" (first_line (snd candidate)).

(** [a <= b] on floats. *)
Definition float_leb (a b : float) : bool :=
  match a, b with
  | NaN, _ | _, NaN => false
  | Finite x, Finite y => Qle_bool x y
  | Finite _, Infinity negative => negb negative
  | Infinity negative, Finite _ => negative
  | Infinity n1, Infinity n2 => n1 || negb n2
  end.

Definition touches_network_or_files (e : event) : bool := is_network e || is_fs_write e.

Definition sample_args (m : float) : Args := {|
  url := $"2301.00001";
  output := $"paper";
  width := 4;
  height := 6;
  margin := m;
  landscape := false;
  verbose := false
|}.

(** An environment for the examples: both programs are installed, every
    request is answered with the same page, the archive holds one style
    file and one main file, and the compiler produces the PDF. *)
Definition sample_env : Env := {|
  parse_args := fun argv =>
    match argv with
    | [] => UsageError
    | _ => if existsb (fun a => String.eqb (string_of_list_ascii a) "-h") argv then Help
           else Parsed (sample_args (Finite (1 # 5)))
    end;
  run_version := fun _ => Some 0%Z;
  http_get := fun _ => Some $"<html><title>[2301.00001] A Title</title></html>";
  http_stream := fun _ => Some ($"archive", true);
  open_wb := fun _ => None;
  untar := fun _ => Files {|
    sty_files := [($"paper.sty", $"\twocolumn [\@maketitle]")];
    tex_files := [($"main",
                   $"\documentclass{article}" ++ [nl] ++ $"\begin{document}" ++ [nl] ++
                   $"Hello" ++ [nl] ++ $"\end{document}")];
    bib_present := false |};
  pdf_exists := fun _ => true;
  float_repr := fun _ => $"0.2";
  path_suffix := fun _ => [];
  path_with_suffix := fun p s => Ok (p ++ s)
|}.


(** Main files for the examples. *)
Definition minimal_doc : str :=
  $"\documentclass{article}" ++ [nl] ++ $"\begin{document}" ++ [nl] ++
  $"Hello" ++ [nl] ++ $"\end{document}".

Definition indented_marker_doc : str :=
  $"\documentclass{article}" ++ [nl] ++ $"  \begin{document}" ++ [nl] ++
  $"Hello" ++ [nl] ++ $"\end{document}".

Definition doubled_marker_doc : str :=
  $"\documentclass{article}" ++ [nl] ++ $"\begin{document}\begin{document}" ++ [nl] ++
  $"Hello" ++ [nl] ++ $"\end{document}".

Definition point_size_marker_doc : str :=
  $"11pt\begin{document}\documentclass{article}" ++ [nl] ++ $"Hello".

(** Main files with an image directive: on a line of its own, inside the
    bracketed argument of [\twocolumn], and in a comment line. *)
Definition figure_doc : str :=
  $"\documentclass{article}" ++ [nl] ++ $"\begin{document}" ++ [nl] ++
  $"\includegraphics[width=0.8\linewidth]{fig.png}" ++ [nl] ++ $"\end{document}".

Definition twocolumn_figure_doc : str :=
  $"\documentclass{article}" ++ [nl] ++ $"\begin{document}" ++ [nl] ++
  $"\twocolumn[\includegraphics[width=0.8\linewidth]{fig.png}]" ++ [nl] ++ $"\end{document}".

Definition commented_figure_doc : str :=
  $"\documentclass{article}" ++ [nl] ++ $"\begin{document}" ++ [nl] ++
  $"% \includegraphics[width=0.8\linewidth]{fig.png}" ++ [nl] ++ $"\end{document}".

Definition blank_first_line_doc : str := [nl] ++ minimal_doc.

Definition commented_first_line_doc : str := $"% documentclass" ++ [nl] ++ $"Hello".

Definition comment_only_doc : str := $"% \documentclass{article}".

Definition one_main (text : str) : Extracted :=
  {| sty_files := []; tex_files := [($"main", text)]; bib_present := false |}.

Definition style_writes (files : list (str * str)) : list event :=
  map (fun f => WriteFile (fst f) (rewrite_sty (snd f))) files.

(** A fact about one character, checked on each of the 256. *)
Ltac by_cases_on c :=
  destruct c as [[|] [|] [|] [|] [|] [|] [|] [|]]; try discriminate; try reflexivity.

(** ** Definitions used in the further properties *)

Definition first_is_space (t : str) : bool :=
  match t with
  | c :: _ => is_space c
  | [] => false
  end.

Definition last_is_space (t : str) : bool := first_is_space (rev t).

(** Every blank is a space, and no two stand side by side. *)
Fixpoint single_spaced (t : str) : bool :=
  match t with
  | [] => true
  | c :: t' =>
      (negb (is_space c) || (Ascii.eqb c " " && negb (first_is_space t'))) &&
      single_spaced t'
  end.

Definition is_temp (e : event) : bool :=
  match e with
  | MkTemp | RmTemp => true
  | _ => false
  end.

Definition is_copy (e : event) : bool :=
  match e with
  | CopyFile _ _ => true
  | _ => false
  end.


(** The sample environment without [pdflatex]. *)
Definition no_pdflatex_env : Env := {|
  parse_args := parse_args sample_env;
  run_version := fun _ => None;
  http_get := http_get sample_env;
  http_stream := http_stream sample_env;
  open_wb := open_wb sample_env;
  untar := untar sample_env;
  pdf_exists := pdf_exists sample_env;
  float_repr := float_repr sample_env;
  path_suffix := path_suffix sample_env;
  path_with_suffix := path_with_suffix sample_env
|}.

(** A text without its commas that stand right before [\]] or [,]. *)
Fixpoint drop_commas (s : str) : str :=
  match s with
  | [] => []
  | c :: s' =>
      if Ascii.eqb "," c &&
         match s' with
         | d :: _ => one_of $"]," d
         | [] => false
         end
      then drop_commas s'
      else c :: drop_commas s'
  end.

(** Shows that a match of a pattern that begins with a literal text
    begins with that text; [literal] is the equation of the matcher on a
    literal text. *)
Ltac begins_with_literal literal :=
  intros prev t cs rest; unfold match_at; cbn [m]; rewrite literal;
  match goal with |- context [startswith ?p t] => destruct (startswith p t) end;
  [reflexivity|discriminate].
(** * Properties *)

Unset Implicit Arguments.

(** ** Texts *)

Lemma after_cons c a prev : after (c :: a) prev = after a (Some c).
Proof. reflexivity. Qed.

Lemma after_app a b prev : after (a ++ b) prev = after b (after a prev).
Proof.
  revert prev. induction a as [|c a IH]; intro prev; [reflexivity|].
  simpl app. rewrite !after_cons. apply IH.
Qed.

Lemma startswith_app l s : startswith l (l ++ s) = true.
Proof.
  induction l as [|c l IH]; [reflexivity|].
  simpl. rewrite Ascii.eqb_refl. exact IH.
Qed.

Lemma startswith_split l s :
  startswith l s = true -> s = l ++ skipn (List.length l) s.
Proof.
  revert s. induction l as [|c l IH]; intros s H; [reflexivity|].
  destruct s as [|x s]; [discriminate|].
  simpl in H. apply andb_true_iff in H. destruct H as [Hc Hl].
  apply Ascii.eqb_eq in Hc. subst x. simpl. f_equal. apply IH, Hl.
Qed.

Lemma startswith_iff l s : startswith l s = true <-> exists t, s = l ++ t.
Proof.
  split.
  - intro H. eexists. apply startswith_split, H.
  - intros [t ->]. apply startswith_app.
Qed.

Lemma skipn_length_app (A : Type) (l t : list A) : skipn (List.length l) (l ++ t) = t.
Proof. induction l; [reflexivity|assumption]. Qed.

Lemma firstn_length_app (A : Type) (l t : list A) : firstn (List.length l) (l ++ t) = l.
Proof. induction l; [reflexivity|]. simpl. f_equal. assumption. Qed.

(** ** The matcher *)

Lemma orelse_some (R : Type) (a b : option R) r :
  orelse a b = Some r -> a = Some r \/ (a = None /\ b = Some r).
Proof. destruct a; simpl; intro H; [left|right]; auto. Qed.

Lemma orelse_none (R : Type) (a b : option R) :
  orelse a b = None <-> a = None /\ b = None.
Proof. destruct a; simpl; split; intros; intuition discriminate. Qed.

(** A literal text matches exactly itself. *)
Lemma m_Str (R : Type) l prev s cs (k : cont R) :
  m (Str l) prev s cs k =
  if startswith l s then k (after l prev) (skipn (List.length l) s) cs else None.
Proof.
  revert prev s. induction l as [|c l IH]; intros prev s; [reflexivity|].
  destruct l as [|c' l].
  - simpl. destruct s as [|x s]; [reflexivity|].
    rewrite andb_true_r. destruct (Ascii.eqb_spec c x); [subst|]; reflexivity.
  - change (Str (c :: c' :: l)) with (Seq (Lit c) (Str (c' :: l))).
    cbn [m Lit]. destruct s as [|x s]; [reflexivity|].
    cbn [startswith]. destruct (Ascii.eqb_spec c x); [subst x|reflexivity].
    rewrite IH. reflexivity.
Qed.

(** Whatever a repetition matched is a run of the class within its bounds. *)
Lemma rep_sound (R : Type) p (k : cont R) cs r :
  forall s lo hi prev,
    rep p lo hi prev s cs k = Some r ->
    exists a b, s = a ++ b /\ forallb p a = true /\ lo <= List.length a /\
                within hi (List.length a) /\ k (after a prev) b cs = Some r.
Proof.
  assert (Hstop : forall s lo hi prev,
             match lo with 0 => k prev s cs | S _ => None end = Some r ->
             exists a b, s = a ++ b /\ forallb p a = true /\ lo <= List.length a /\
                         within hi (List.length a) /\ k (after a prev) b cs = Some r).
  { intros s lo hi prev H. destruct lo; [|discriminate].
    exists [], s. repeat split; auto. destruct hi; simpl; lia. }
  induction s as [|c s IH]; intros lo hi prev H.
  - apply Hstop, H.
  - cbn [rep] in H.
    destruct (p c && may_more hi) eqn:E; [|apply Hstop, H].
    apply andb_true_iff in E. destruct E as [Hp Hm].
    apply orelse_some in H. destruct H as [H|[_ H]]; [|apply Hstop, H].
    apply IH in H. destruct H as (a & b & -> & Ha & Hlo & Hhi & Hk).
    exists (c :: a), b. rewrite after_cons. simpl. rewrite Hp, Ha.
    repeat split; auto; [lia|].
    destruct hi as [[|h]|]; simpl in *; try discriminate; auto; lia.
Qed.

(** The longest run is tried first. *)
Lemma rep_greedy (R : Type) p (k : cont R) cs r b :
  forall a lo hi prev,
    forallb p a = true ->
    lo <= List.length a ->
    within hi (List.length a) ->
    k (after a prev) b cs = Some r ->
    (hi = Some (List.length a) \/ b = [] \/ exists c b', b = c :: b' /\ p c = false) ->
    rep p lo hi prev (a ++ b) cs k = Some r.
Proof.
  induction a as [|c a IH]; intros lo hi prev Ha Hlo Hhi Hk Hb.
  - simpl in Hlo. assert (lo = 0) by lia. subst lo. simpl app.
    destruct b as [|x b]; [exact Hk|].
    cbn [rep]. destruct Hb as [->|[Hb|(c' & b' & Hb & Hp)]].
    + simpl. rewrite andb_false_r. exact Hk.
    + discriminate.
    + injection Hb as -> ->. rewrite Hp. exact Hk.
  - simpl in Ha. apply andb_true_iff in Ha. destruct Ha as [Hp Ha].
    simpl app. cbn [rep]. rewrite Hp.
    assert (Hm : may_more hi = true).
    { destruct hi as [[|h]|]; simpl in *; auto; lia. }
    rewrite Hm. simpl andb. cbv iota.
    rewrite (IH (pred lo) (less hi) (Some c)); [reflexivity|exact Ha| | |exact Hk|].
    + simpl in Hlo. lia.
    + destruct hi as [h|]; simpl in *; auto; lia.
    + destruct Hb as [->|Hb]; [left|right; exact Hb]. reflexivity.
Qed.

(** ** Searching and substituting *)

Lemma sub_from_skip r repl b :
  forall a prev,
    sub_from r repl prev (a ++ b) (List.length a) = sub_from r repl (after a prev) b 0.
Proof.
  induction a as [|c a IH]; intro prev; [reflexivity|].
  simpl. apply IH.
Qed.

(** At a match that is not empty the replacement is emitted and the scan
    goes on after the match. *)
Lemma sub_from_match r repl prev mm rest cs :
  mm <> [] ->
  match_at r prev (mm ++ rest) = Some (cs, rest) ->
  sub_from r repl prev (mm ++ rest) 0 =
  repl cs ++ sub_from r repl (after mm prev) rest 0.
Proof.
  intros Hmm H. destruct mm as [|c mm]; [congruence|].
  simpl app in *. cbn [sub_from]. rewrite H. f_equal.
  cbn [List.length]. rewrite length_app.
  replace (S (List.length mm + List.length rest) - List.length rest) with (S (List.length mm)) by lia.
  simpl. apply sub_from_skip.
Qed.

Lemma sub_from_copy r repl prev c s :
  match_at r prev (c :: s) = None ->
  sub_from r repl prev (c :: s) 0 = c :: sub_from r repl (Some c) s 0.
Proof. intro H. cbn [sub_from]. rewrite H. reflexivity. Qed.

Lemma sub_from_app r repl X :
  local_before r repl X ->
  (forall prev, match_at r prev [] = None) ->
  forall pre n prev,
    n <= List.length pre ->
    sub_from r repl prev (pre ++ X) n =
    sub_from r repl prev pre n ++ sub_from r repl (after pre prev) X 0.
Proof.
  intros Hloc Hnil. induction pre as [|c pre IH]; intros n prev Hn.
  - simpl in Hn. assert (n = 0) by lia. subst n.
    simpl app. cbn [sub_from after]. rewrite (Hnil prev).
    destruct X; reflexivity.
  - destruct n as [|n].
    + specialize (Hloc prev c pre). simpl app. cbn [sub_from].
      destruct (match_at r prev (c :: pre)) as [[cs rest]|].
      * destruct Hloc as (cs' & -> & ->).
        rewrite length_app.
        assert (E : List.length (c :: pre ++ X) - (List.length rest + List.length X)
                    = List.length (c :: pre) - List.length rest).
        { cbn [List.length]. rewrite length_app. lia. }
        rewrite E. rewrite <- !app_assoc. f_equal. f_equal.
        apply IH. destruct (List.length rest); simpl; lia.
      * rewrite Hloc. simpl. f_equal. apply IH. lia.
    + simpl. apply IH. simpl in Hn. lia.
Qed.

Lemma rep_prev_free (R : Type) p (k k' : cont R) :
  (forall p1 p2 s cs, k p1 s cs = k' p2 s cs) ->
  forall s lo hi p1 p2 cs, rep p lo hi p1 s cs k = rep p lo hi p2 s cs k'.
Proof.
  intro Hk. induction s as [|c s IH]; intros lo hi p1 p2 cs; cbn [rep].
  - destruct lo; auto.
  - rewrite (IH (pred lo) (less hi) (Some c) (Some c) cs).
    rewrite (Hk p1 p2 (c :: s) cs). reflexivity.
Qed.

Lemma m_prev_free (R : Type) r :
  prev_free r = true ->
  forall (k k' : cont R),
    (forall p1 p2 s cs, k p1 s cs = k' p2 s cs) ->
    forall p1 p2 s cs, m r p1 s cs k = m r p2 s cs k'.
Proof.
  induction r as [ | p | r1 IH1 r2 IH2 | r1 IH1 r2 IH2 | lo hi p | n r1 IH1 | | | p | p ];
    intros Hr k k' Hk p1 p2 s cs; cbn [m]; simpl in Hr; try discriminate.
  - apply Hk.
  - destruct s as [|c s]; [reflexivity|]. destruct (p c); [apply Hk|reflexivity].
  - apply andb_true_iff in Hr. destruct Hr as [H1 H2].
    apply IH1; [exact H1|]. intros. apply IH2; assumption.
  - apply andb_true_iff in Hr. destruct Hr as [H1 H2].
    rewrite (IH1 H1 k k' Hk p1 p2), (IH2 H2 k k' Hk p1 p2). reflexivity.
  - apply rep_prev_free, Hk.
  - apply IH1; [exact Hr|]. intros. apply Hk.
  - destruct s as [|c s]; [reflexivity|]. destruct (p c); [apply Hk|reflexivity].
Qed.

Lemma match_at_prev_free r p1 p2 s :
  prev_free r = true -> match_at r p1 s = match_at r p2 s.
Proof. intro H. unfold match_at. apply m_prev_free; auto. Qed.

Lemma sub_from_prev_free r repl :
  prev_free r = true ->
  forall s n p1 p2, sub_from r repl p1 s n = sub_from r repl p2 s n.
Proof.
  intro H. induction s as [|c s IH]; intros n p1 p2.
  - destruct n; cbn [sub_from]; [|reflexivity].
    rewrite (match_at_prev_free r p1 p2 [] H). reflexivity.
  - destruct n; cbn [sub_from]; [|apply IH].
    rewrite (match_at_prev_free r p1 p2 (c :: s) H). reflexivity.
Qed.

(** ** The matcher, continued *)

(** A successful match went through its continuation at a later position
    of the same text. *)
Lemma m_continues_later (R : Type) r :
  forall prev s cs (k : cont R) x,
    m r prev s cs k = Some x ->
    exists prev' s' cs' a, k prev' s' cs' = Some x /\ s = a ++ s'.
Proof.
  induction r as [ | p | r1 IH1 r2 IH2 | r1 IH1 r2 IH2 | lo hi p | n r1 IH1 | | | p | p ];
    intros prev s cs k x H; cbn [m] in H.
  - exists prev, s, cs, []. auto.
  - destruct s as [|c s]; [discriminate|]. destruct (p c); [|discriminate].
    exists (Some c), s, cs, [c]. auto.
  - apply IH1 in H. destruct H as (p1 & s1 & c1 & a1 & H & ->).
    apply IH2 in H. destruct H as (p2 & s2 & c2 & a2 & H & ->).
    exists p2, s2, c2, (a1 ++ a2). rewrite <- app_assoc. auto.
  - apply orelse_some in H. destruct H as [H|[_ H]]; eauto.
  - apply rep_sound in H. destruct H as (a & b & -> & _ & _ & _ & H). eauto 6.
  - apply IH1 in H. destruct H as (p1 & s1 & c1 & a1 & H & ->). eauto 6.
  - destruct (xorb (word_prev prev) (word_next s)); [|discriminate].
    exists prev, s, cs, []. auto.
  - destruct prev; [discriminate|]. exists None, s, cs, []. auto.
  - destruct prev as [c|]; [|discriminate]. destruct (p c); [|discriminate].
    exists (Some c), s, cs, []. auto.
  - destruct s as [|c s]; [discriminate|]. destruct (p c); [|discriminate].
    exists prev, (c :: s), cs, []. auto.
Qed.

(** Where no match can start, the substitution copies: a pattern whose
    matches all satisfy [trigger] leaves alone a prefix in which no
    position satisfies it.  [trigger] may look ahead past the prefix. *)
Lemma sub_from_copies r repl (trigger : str -> bool) X :
  (forall prev s cs rest, match_at r prev s = Some (cs, rest) -> trigger s = true) ->
  forall pre prev,
    (forall a b, pre = a ++ b -> b <> [] -> trigger (b ++ X) = false) ->
    sub_from r repl prev (pre ++ X) 0 = pre ++ sub_from r repl (after pre prev) X 0.
Proof.
  intros Ht. induction pre as [|c pre IH]; intros prev Hpre; [reflexivity|].
  simpl app. rewrite sub_from_copy.
  - f_equal. apply IH. intros a b E Hb. apply (Hpre (c :: a) b); [rewrite E; reflexivity|exact Hb].
  - destruct (match_at r prev (c :: pre ++ X)) as [[cs rest]|] eqn:E; [|reflexivity].
    apply Ht in E. change (c :: pre ++ X) with ((c :: pre) ++ X) in E.
    rewrite (Hpre [] (c :: pre) eq_refl) in E; discriminate.
Qed.

(** ** Patterns that begin with a literal text *)

Lemma contains_false_startswith p s : contains p s = false -> startswith p s = false.
Proof.
  destruct s; simpl; intro H; apply orb_false_iff in H; tauto.
Qed.

Lemma contains_false_suffix p a b : contains p (a ++ b) = false -> contains p b = false.
Proof.
  induction a as [|c a IH]; intro H; [exact H|].
  simpl in H. apply orb_false_iff in H. apply IH. tauto.
Qed.

(** A pattern that begins with a literal text changes nothing in a text
    where the literal does not occur. *)
Lemma sub_unchanged r repl p s :
  (forall prev t cs rest, match_at r prev t = Some (cs, rest) -> startswith p t = true) ->
  contains p s = false ->
  forall prev, sub_from r repl prev s 0 = s.
Proof.
  intros Hm Hc prev.
  assert (Hnil : forall q, sub_from r repl q [] 0 = []).
  { intro q. cbn [sub_from]. destruct (match_at r q []) as [[cs rest]|] eqn:E; [|reflexivity].
    apply Hm in E.
    assert (Hs : contains p [] = false).
    { apply (contains_false_suffix p s []). rewrite app_nil_r. exact Hc. }
    apply contains_false_startswith in Hs. congruence. }
  rewrite <- (app_nil_r s) at 1.
  rewrite (sub_from_copies r repl (startswith p) [] Hm s prev).
  - rewrite Hnil, app_nil_r. reflexivity.
  - intros a b -> _. rewrite app_nil_r.
    apply contains_false_startswith, (contains_false_suffix p a b), Hc.
Qed.

Lemma m_StrI_begins (R : Type) l :
  forall prev s cs (k : cont R) x,
    m (StrI l) prev s cs k = Some x ->
    startswith (map lower l) (map lower s) = true.
Proof.
  induction l as [|c l IH]; intros prev s cs k x H; [reflexivity|].
  destruct l as [|c' l].
  - cbn in H. destruct s as [|y s]; [discriminate|].
    cbn. destruct (Ascii.eqb_spec (lower y) (lower c)) as [->|]; [|discriminate].
    rewrite Ascii.eqb_refl. reflexivity.
  - change (StrI (c :: c' :: l)) with (Seq (LitI c) (StrI (c' :: l))) in H.
    cbn [m LitI] in H. destruct s as [|y s]; [discriminate|].
    destruct (Ascii.eqb_spec (lower y) (lower c)) as [E|]; [|discriminate].
    apply IH in H. cbn [map startswith]. rewrite E, Ascii.eqb_refl. exact H.
Qed.

Lemma usepackage_begins :
  forall prev t cs rest, match_at USEPACKAGE_GEOMETRY prev t = Some (cs, rest) ->
                         startswith $"\usepackage" t = true.
Proof. unfold USEPACKAGE_GEOMETRY. begins_with_literal m_Str. Qed.

Lemma newgeometry_begins_literal :
  forall prev t cs rest, match_at NEWGEOMETRY prev t = Some (cs, rest) ->
                         startswith $"\newgeometry" t = true.
Proof. unfold NEWGEOMETRY. begins_with_literal m_Str. Qed.

Lemma geometry_begins :
  forall prev t cs rest, match_at GEOMETRY prev t = Some (cs, rest) ->
                         startswith $"\geometry" t = true.
Proof. unfold GEOMETRY. begins_with_literal m_Str. Qed.

Lemma requirepackage_begins :
  forall prev t cs rest, match_at REQUIREPACKAGE_GEOMETRY prev t = Some (cs, rest) ->
                         startswith $"\RequirePackage" t = true.
Proof. unfold REQUIREPACKAGE_GEOMETRY. begins_with_literal m_Str. Qed.

Lemma twocolumn_begins_literal :
  forall prev t cs rest, match_at TWOCOLUMN prev t = Some (cs, rest) ->
                         startswith $"\twocolumn" t = true.
Proof. unfold TWOCOLUMN. begins_with_literal m_Str. Qed.

Lemma ifpackageloaded_begins :
  forall prev t cs rest, match_at IFPACKAGELOADED prev t = Some (cs, rest) ->
                         startswith $"\@ifpackageloaded{geometry}" t = true.
Proof. unfold IFPACKAGELOADED. begins_with_literal m_Str. Qed.

Lemma includegraphics_begins :
  forall prev t cs rest, match_at INCLUDEGRAPHICS prev t = Some (cs, rest) ->
                         startswith $"\includegraphics[width=" t = true.
Proof. unfold INCLUDEGRAPHICS. begins_with_literal m_Str. Qed.

Lemma packageerror_begins prev t cs rest :
  match_at PACKAGEERROR prev t = Some (cs, rest) ->
  startswith (map lower $"\PackageError") (map lower t) = true.
Proof.
  unfold match_at, PACKAGEERROR. cbn [m]. intro H.
  apply m_StrI_begins in H. exact H.
Qed.

(** The same for a pattern that begins with a literal read without regard
    to case. *)
Lemma sub_unchanged_nocase r repl p s :
  (forall prev t cs rest, match_at r prev t = Some (cs, rest) ->
                          startswith p (map lower t) = true) ->
  contains p (map lower s) = false ->
  forall prev, sub_from r repl prev s 0 = s.
Proof.
  intros Hm Hc prev.
  assert (Hnil : forall q, sub_from r repl q [] 0 = []).
  { intro q. cbn [sub_from]. destruct (match_at r q []) as [[cs rest]|] eqn:E; [|reflexivity].
    apply Hm in E.
    assert (Hs : contains p [] = false).
    { apply (contains_false_suffix p (map lower s) []). rewrite app_nil_r. exact Hc. }
    apply contains_false_startswith in Hs. simpl in E. congruence. }
  rewrite <- (app_nil_r s) at 1.
  rewrite (sub_from_copies r repl (fun t => startswith p (map lower t)) [] Hm s prev).
  - rewrite Hnil, app_nil_r. reflexivity.
  - intros a b -> _. rewrite app_nil_r. rewrite map_app in Hc.
    apply contains_false_startswith, (contains_false_suffix p (map lower a)), Hc.
Qed.


(** ** Image directives (line 255) *)

Lemma includegraphics_complete prev F u rest :
  is_fraction F -> is_unit u ->
  exists cs, match_at INCLUDEGRAPHICS prev (width_directive F u ++ rest) = Some (cs, rest) /\
             scaled cs = scaled_directive F.
Proof.
  intros [HF1 HF2] Hu.
  assert (Hlen : 1 <= List.length F) by (destruct F; [congruence|simpl; lia]).
  unfold match_at, INCLUDEGRAPHICS, width_directive, Plus.
  cbn [m]. rewrite m_Str. rewrite <- !app_assoc. rewrite startswith_app.
  rewrite skipn_length_app.
  destruct Hu as [-> | ->]; eexists; (split; [|shelve]).
  all: match goal with |- rep ?p _ _ _ _ _ _ = _ => change p with frac_char end.
  all: apply rep_greedy; [exact HF2|exact Hlen|exact I| |right; right; eexists _, _; split; reflexivity].
  all: rewrite length_app.
  all: match goal with |- context [?a + ?n - ?n] =>
         replace (a + n - n) with a by lia end.
  all: rewrite firstn_length_app.
  all: cbn; reflexivity.
  Unshelve.
  all: reflexivity.
Qed.

Lemma includegraphics_sound prev s cs rest :
  match_at INCLUDEGRAPHICS prev s = Some (cs, rest) ->
  exists F u, is_fraction F /\ is_unit u /\ s = width_directive F u ++ rest /\
              scaled cs = scaled_directive F.
Proof.
  unfold match_at, INCLUDEGRAPHICS, Plus. cbn [m]. rewrite m_Str.
  destruct (startswith $"\includegraphics[width=" s) eqn:E; [|discriminate].
  apply startswith_split in E. revert E.
  generalize (skipn (List.length $"\includegraphics[width=") s). intros s1 E H.
  apply rep_sound in H. destruct H as (F & b & -> & HF & Hlo & _ & H).
  rewrite length_app in H.
  replace (List.length F + List.length b - List.length b) with (List.length F) in H by lia.
  rewrite firstn_length_app in H.
  cbn [m Lit] in H.
  destruct b as [|x b]; [discriminate|].
  destruct (Ascii.eqb_spec "\" x); [subst x|discriminate].
  rewrite !m_Str in H.
  assert (HFr : is_fraction F).
  { split; [intros ->; simpl in Hlo; lia|exact HF]. }
  apply orelse_some in H. destruct H as [H|[_ H]].
  - destruct (startswith $"line" b) eqn:E1; [|discriminate].
    apply startswith_split in E1. revert E1 H.
    generalize (skipn (List.length $"line") b). intros b1 E1 H.
    destruct (startswith $"width]" b1) eqn:E2; [|discriminate].
    apply startswith_split in E2. injection H as <- <-.
    exists F, $"line". split; [exact HFr|]. split; [left; reflexivity|]. split; [|reflexivity].
    rewrite E, E1, E2 at 1. unfold width_directive. rewrite <- !app_assoc. reflexivity.
  - destruct (startswith $"text" b) eqn:E1; [|discriminate].
    apply startswith_split in E1. revert E1 H.
    generalize (skipn (List.length $"text") b). intros b1 E1 H.
    destruct (startswith $"width]" b1) eqn:E2; [|discriminate].
    apply startswith_split in E2. injection H as <- <-.
    exists F, $"text". split; [exact HFr|]. split; [right; reflexivity|]. split; [|reflexivity].
    rewrite E, E1, E2 at 1. unfold width_directive. rewrite <- !app_assoc. reflexivity.
Qed.

(** A match that starts before a directive ends before it: the only
    backslash inside a match is followed by [line] or [text], and the
    directive goes on with [includegraphics]. *)
Lemma directive_within c p X rest F u :
  is_fraction F -> is_unit u ->
  (c :: p) ++ "\"%char :: "i"%char :: X = width_directive F u ++ rest ->
  exists r, c :: p = width_directive F u ++ r.
Proof.
  intros [_ HF] Hu E.
  unfold width_directive in *. rewrite <- !app_assoc in E.
  change ($"\includegraphics[width=" ++ F ++ $"\" ++ u ++ $"width]" ++ rest)
    with ("\"%char :: ($"includegraphics[width=" ++ F) ++
          "\"%char :: (u ++ $"width]" ++ rest)) in E.
  simpl app in E at 1. injection E as -> E.
  apply (app_eq_app p ("\"%char :: "i"%char :: X) ($"includegraphics[width=" ++ F)
           ("\"%char :: (u ++ $"width]" ++ rest))) in E.
  destruct E as [l [[E1 E2]|[E1 E2]]].
  - destruct l as [|y l].
    + simpl in E2. destruct Hu as [-> | ->]; discriminate.
    + simpl in E2. injection E2 as <- E2.
      destruct Hu as [-> | ->]; simpl in E2.
      all: do 10 (destruct l as [|? l]; [discriminate|]; injection E2 as <- E2).
      all: exists l; subst p; simpl; rewrite <- !app_assoc; reflexivity.
  - destruct l as [|y l].
    + simpl in E2. injection E2 as E2.
      destruct Hu as [-> | ->]; discriminate.
    + simpl in E2. injection E2 as <- E2.
      assert (Hin : In "\"%char ($"includegraphics[width=" ++ F)).
      { rewrite E1. apply in_or_app. right. left. reflexivity. }
      apply in_app_or in Hin. destruct Hin as [Hin|Hin].
      * simpl in Hin. repeat (destruct Hin as [Hin|Hin]; [discriminate|]). contradiction.
      * rewrite forallb_forall in HF. apply HF in Hin. discriminate.
Qed.

Lemma includegraphics_local F u post :
  is_fraction F -> is_unit u ->
  local_before INCLUDEGRAPHICS scaled (width_directive F u ++ post).
Proof.
  intros HF Hu prev c p.
  destruct (match_at INCLUDEGRAPHICS prev (c :: p)) as [[cs rest]|] eqn:E.
  - apply includegraphics_sound in E.
    destruct E as (F' & u' & HF' & Hu' & E & Hs).
    destruct (includegraphics_complete prev F' u' (rest ++ width_directive F u ++ post) HF' Hu')
      as (cs' & Hm & Hs').
    exists cs'. split; [|congruence].
    change (c :: p ++ width_directive F u ++ post)
      with ((c :: p) ++ width_directive F u ++ post).
    rewrite E, <- app_assoc. exact Hm.
  - destruct (match_at INCLUDEGRAPHICS prev (c :: p ++ width_directive F u ++ post))
      as [[cs rest]|] eqn:E'; [|reflexivity].
    exfalso. apply includegraphics_sound in E'.
    destruct E' as (F' & u' & HF' & Hu' & E' & _).
    destruct (directive_within c p
                ($"ncludegraphics[width=" ++ F ++ $"\" ++ u ++ $"width]" ++ post)
                rest F' u' HF' Hu') as [r Hr].
    + rewrite <- E'. unfold width_directive. rewrite <- !app_assoc. reflexivity.
    + destruct (includegraphics_complete prev F' u' r HF' Hu') as (cs' & Hm & _).
      rewrite <- Hr in Hm. congruence.
Qed.

Lemma includegraphics_not_empty prev : match_at INCLUDEGRAPHICS prev [] = None.
Proof. reflexivity. Qed.

Lemma includegraphics_prev_free : prev_free INCLUDEGRAPHICS = true.
Proof. reflexivity. Qed.

(** Every line the main file is written from went through [scale_line]. *)
Lemma rewrite_tex_ok is_landscape geometric_settings text out :
  rewrite_tex is_landscape geometric_settings text = Ok out <->
  exists src i,
    rewritten_lines text = Ok src /\ begindocs src = [i] /\
    out = join [nl] (map scale_line (insert_settings is_landscape geometric_settings i src)).
Proof.
  unfold rewrite_tex. split.
  - destruct (rewritten_lines text) as [src|e]; [|discriminate].
    destruct (begindocs src) as [|i [|j l]] eqn:E; try discriminate.
    intro H. injection H as <-. exists src, i. auto.
  - intros (src & i & -> & -> & ->). reflexivity.
Qed.

(** In any line, an image directive is rewritten by the image-scaling step,
    whatever stands before and after it on the line; the text before and
    the text after are scaled on their own. *)
Lemma scale_line_directive (pre F u post : str) :
  is_fraction F -> is_unit u ->
  scale_line (pre ++ width_directive F u ++ post) =
  scale_line pre ++ scaled_directive F ++ scale_line post.
Proof.
  intros HF Hu.
  unfold scale_line, sub.
  rewrite (sub_from_app INCLUDEGRAPHICS scaled _ (includegraphics_local F u post HF Hu)
             includegraphics_not_empty pre 0 None (Nat.le_0_l _)).
  f_equal.
  destruct (includegraphics_complete (after pre None) F u post HF Hu) as (cs & Hm & Hs).
  rewrite (sub_from_match INCLUDEGRAPHICS scaled _ _ _ cs); [|discriminate|exact Hm].
  rewrite Hs. f_equal.
  apply sub_from_prev_free. reflexivity.
Qed.

(** A line without [\newgeometry] and [\twocolumn] leaves the loop of
    lines 214 to 232 as it entered it. *)
Lemma rewrite_line_unchanged l :
  contains $"\newgeometry" l = false -> contains $"\twocolumn" l = false ->
  rewrite_line l = l.
Proof.
  intros Hg Ht. unfold rewrite_line, sub. cbv zeta.
  rewrite (sub_unchanged _ _ _ _ newgeometry_begins_literal Hg).
  apply (sub_unchanged _ _ _ _ twocolumn_begins_literal Ht).
Qed.

Lemma In_insert (A : Type) (x y : A) i l : In x l -> In x (insert i y l).
Proof.
  intro H. unfold insert. rewrite <- (firstn_skipn i l) in H.
  apply in_app_or in H. apply in_or_app. destruct H as [H|H]; [left|right; right]; exact H.
Qed.

Lemma In_insert_settings is_landscape settings i src l :
  In l src -> In l (insert_settings is_landscape settings i src).
Proof.
  intro H. unfold insert_settings. cbv zeta.
  destruct is_landscape; repeat apply In_insert; exact H.
Qed.

(** C4 (as amended). When the main file is rewritten, the image-scaling
    pass runs over the lines that are there at that time: the kept lines
    (comment lines and blank lines are gone), the first one after the
    document-class rewriting, each after the rewriting of [\newgeometry]
    and [\twocolumn], with the settings inserted; the new text is these
    lines, scaled, joined by newlines.  A kept line other than the first
    that holds no [\newgeometry] and no [\twocolumn] is among them as it
    stands in the file.  Every directive
    [\includegraphics[width=F\linewidth]] or
    [\includegraphics[width=F\textwidth]] in one of these lines, with [F]
    made of digits and dots, is rewritten to
    [\includegraphics[width=F\textwidth,height=F\textheight,keepaspectratio]],
    whatever stands before and after it on the line. *)
Theorem image_directive_scaled (is_landscape : bool) (settings : list (str * str))
    (text out : str) :
  rewrite_tex is_landscape settings text = Ok out ->
  exists first rest i,
    kept_lines text = first :: rest /\
    begindocs (map rewrite_line (rewrite_documentclass first :: rest)) = [i] /\
    let lines := insert_settings is_landscape settings i
                   (map rewrite_line (rewrite_documentclass first :: rest)) in
    out = join [nl] (map scale_line lines) /\
    (forall l, In l rest ->
               contains $"\newgeometry" l = false -> contains $"\twocolumn" l = false ->
               In l lines) /\
    (forall pre F u post,
       is_fraction F -> is_unit u ->
       In (pre ++ $"\includegraphics[width=" ++ F ++ $"\" ++ u ++ $"width]" ++ post) lines ->
       In (scale_line pre ++
           $"\includegraphics[width=" ++ F ++ $"\textwidth,height=" ++ F ++
           $"\textheight,keepaspectratio]" ++ scale_line post)
          (map scale_line lines)).
Proof.
  intro H. apply rewrite_tex_ok in H. destruct H as (src & i & Hsrc & Hi & Hout).
  unfold rewritten_lines in Hsrc. fold (kept_lines text) in Hsrc.
  destruct (kept_lines text) as [|first rest]; [discriminate|].
  injection Hsrc as <-.
  exists first, rest, i. split; [reflexivity|]. split; [exact Hi|].
  cbv zeta. split; [exact Hout|]. split.
  - intros l Hl Hg Ht. apply In_insert_settings.
    rewrite <- (rewrite_line_unchanged l Hg Ht). apply in_map. right. exact Hl.
  - intros pre F u post HF Hu Hl.
    replace ($"\includegraphics[width=" ++ F ++ $"\" ++ u ++ $"width]" ++ post)
      with (width_directive F u ++ post) in Hl
      by (unfold width_directive; rewrite <- !app_assoc; reflexivity).
    replace ($"\includegraphics[width=" ++ F ++ $"\textwidth,height=" ++ F ++
             $"\textheight,keepaspectratio]" ++ scale_line post)
      with (scaled_directive F ++ scale_line post)
      by (unfold scaled_directive; rewrite <- !app_assoc; reflexivity).
    rewrite <- (scale_line_directive pre F u post HF Hu).
    apply in_map. exact Hl.
Qed.

Lemma image_directive_scaled_example :
  rewrite_tex false [] figure_doc =
    Ok ($"\documentclass[onecolumn]{article}" ++ [nl] ++
        $"\pagestyle{empty}" ++ [nl; nl] ++
        $"\usepackage{times}" ++ [nl; nl] ++
        $"\makeatletter\@ifpackageloaded{geometry}{}{\usepackage{geometry}}\makeatother" ++
        [nl; nl] ++
        $"\geometry{}" ++ [nl; nl] ++
        $"\begin{document}" ++ [nl] ++
        $"\includegraphics[width=0.8\textwidth,height=0.8\textheight,keepaspectratio]{fig.png}"
        ++ [nl] ++ $"\end{document}") /\
  exists lines,
    In $"\includegraphics[width=0.8\linewidth]{fig.png}" lines /\
    In $"\includegraphics[width=0.8\textwidth,height=0.8\textheight,keepaspectratio]{fig.png}"
       (map scale_line lines).
Proof.
  split; [vm_compute; reflexivity|].
  destruct (image_directive_scaled false [] figure_doc
              (join [nl] (map scale_line
                 (insert_settings false [] 1
                    (map rewrite_line
                       [ rewrite_documentclass $"\documentclass{article}";
                         $"\begin{document}";
                         $"\includegraphics[width=0.8\linewidth]{fig.png}";
                         $"\end{document}" ])))))
    as (first & rest & i & Hk & Hi & _ & Hin & Hsc).
  - vm_compute. reflexivity.
  - vm_compute in Hk. injection Hk as <- <-.
    eexists. split.
    + apply Hin; [right; left; reflexivity|reflexivity|reflexivity].
    + apply (Hsc [] $"0.8" $"line" $"{fig.png}").
      * split; [discriminate|reflexivity].
      * left. reflexivity.
      * apply Hin; [right; left; reflexivity|reflexivity|reflexivity].
Defined.

(** The claim C4 as stated fails: a directive in the main document need
    not be there any more when the scaling pass runs.  Inside the
    bracketed argument of [\twocolumn] it has lost its closing bracket to
    the rewriting of [\twocolumn] and is left unscaled; in a comment line
    it is dropped with the line. *)
Lemma directive_gone_before_scaling :
  contains (width_directive $"0.8" $"line") twocolumn_figure_doc = true /\
  rewrite_tex false [] twocolumn_figure_doc =
    Ok ($"\documentclass[onecolumn]{article}" ++ [nl] ++
        $"\pagestyle{empty}" ++ [nl; nl] ++
        $"\usepackage{times}" ++ [nl; nl] ++
        $"\makeatletter\@ifpackageloaded{geometry}{}{\usepackage{geometry}}\makeatother" ++
        [nl; nl] ++
        $"\geometry{}" ++ [nl; nl] ++
        $"\begin{document}" ++ [nl] ++
        $"\onecolumn \includegraphics[width=0.8\linewidth{fig.png}]" ++ [nl] ++
        $"\end{document}") /\
  contains (width_directive $"0.8" $"line") commented_figure_doc = true /\
  rewrite_tex false [] commented_figure_doc =
    Ok ($"\documentclass[onecolumn]{article}" ++ [nl] ++
        $"\pagestyle{empty}" ++ [nl; nl] ++
        $"\usepackage{times}" ++ [nl; nl] ++
        $"\makeatletter\@ifpackageloaded{geometry}{}{\usepackage{geometry}}\makeatother" ++
        [nl; nl] ++
        $"\geometry{}" ++ [nl; nl] ++
        $"\begin{document}" ++ [nl] ++
        $"\end{document}").
Proof. repeat split; vm_compute; reflexivity. Qed.

(** ** The identifier parser *)

Lemma digit_not_space c : is_digit c = true -> is_space c = false.
Proof. by_cases_on c. Qed.

Lemma digit_not_h c : is_digit c = true -> Ascii.eqb "h" c = false.
Proof. by_cases_on c. Qed.

Lemma digit_not_v c : is_digit c = true -> Ascii.eqb "v" c = false.
Proof. by_cases_on c. Qed.

Lemma lstrip_clean c s : is_space c = false -> lstrip (c :: s) = c :: s.
Proof. intro H. simpl. rewrite H. reflexivity. Qed.

Lemma rstrip_clean s c : is_space c = false -> rstrip (s ++ [c]) = s ++ [c].
Proof.
  intro H. unfold rstrip. rewrite rev_app_distr. simpl rev at 2. simpl app.
  rewrite lstrip_clean by exact H.
  change (c :: rev s) with ([c] ++ rev s).
  rewrite rev_app_distr, rev_involutive. reflexivity.
Qed.

Lemma digits_app a b : digits (a ++ b) <-> digits a /\ digits b.
Proof. unfold digits. rewrite forallb_app, andb_true_iff. reflexivity. Qed.

Lemma digits_last s :
  s <> [] -> digits s -> exists init d, s = init ++ [d] /\ is_digit d = true.
Proof.
  intros Hs Hd. destruct (exists_last Hs) as (init & d & ->).
  exists init, d. split; [reflexivity|].
  apply digits_app in Hd. destruct Hd as [_ Hd]. unfold digits in Hd. simpl in Hd.
  rewrite andb_true_r in Hd. exact Hd.
Qed.

Lemma valid_id_first id :
  valid_id id -> exists d t, id = d :: t /\ is_digit d = true.
Proof.
  intros (yymm & num & ver & -> & Hy & Dy & _).
  destruct yymm as [|d yymm]; [discriminate|].
  exists d, (yymm ++ $"." ++ num ++ ver). split; [reflexivity|].
  unfold digits in Dy. simpl in Dy. apply andb_true_iff in Dy. tauto.
Qed.

Lemma valid_id_last id :
  valid_id id -> exists init d, id = init ++ [d] /\ is_digit d = true.
Proof.
  intros (yymm & num & ver & -> & _ & _ & Hn & Dn & Hv).
  destruct Hv as [->|(k & -> & Hk & Dk)].
  - destruct (digits_last num) as (init & d & -> & Hd); [intros ->; simpl in Hn; lia|exact Dn|].
    exists (yymm ++ $"." ++ init), d. split; [|exact Hd].
    rewrite app_nil_r, <- !app_assoc. reflexivity.
  - destruct (digits_last k) as (init & d & -> & Hd); [intros ->; simpl in Hk; lia|exact Dk|].
    exists (yymm ++ $"." ++ num ++ "v"%char :: init), d. split; [|exact Hd].
    rewrite <- !app_assoc. reflexivity.
Qed.

(** No blank to strip around a wrapped id. *)
Lemma strip_wrapped w id :
  valid_id id ->
  (w = [] \/ exists c w', w = c :: w' /\ is_space c = false) ->
  strip (w ++ id) = w ++ id.
Proof.
  intros Hid Hw. unfold strip.
  assert (E : lstrip (w ++ id) = w ++ id).
  { destruct Hw as [->|(c & w' & -> & Hc)].
    - destruct (valid_id_first id Hid) as (d & t & -> & Hd).
      apply lstrip_clean, digit_not_space, Hd.
    - apply lstrip_clean, Hc. }
  rewrite E.
  destruct (valid_id_last id Hid) as (init & d & -> & Hd).
  rewrite app_assoc. apply rstrip_clean, digit_not_space, Hd.
Qed.

(** The id group on a text that is exactly an id. *)
Lemma id_group_exact id prev cs :
  valid_id id ->
  m (Grp 1 ID) prev id cs final = Some (set_cap 1 id cs, []).
Proof.
  intros (yymm & num & ver & -> & Hy & Dy & Hn & Dn & Hv).
  unfold ID, Times. cbn [m].
  apply rep_greedy; [exact Dy|lia|simpl; lia| |left; rewrite Hy; reflexivity].
  cbn [app list_ascii_of_string string_of_list_ascii m Lit]. cbn.
  apply rep_greedy; [exact Dn|lia|simpl; lia| |].
  - unfold Opt. cbn [m]. 
    destruct Hv as [->|(k & -> & Hk & Dk)].
    + cbn. unfold final. rewrite app_nil_r.
      replace (List.length (yymm ++ "."%char :: num) - 0)
        with (List.length (yymm ++ "."%char :: num)) by lia.
      rewrite firstn_all. reflexivity.
    + cbn [Lit m].
      match goal with |- orelse (rep _ _ _ _ _ _ ?K) _ = Some ?r =>
        pose proof (rep_greedy _ is_digit K cs r [] k 1 (Some 2) (Some "v"%char) Dk) as E
      end.
      rewrite app_nil_r in E. rewrite E; [reflexivity|lia|simpl; lia| |right; left; reflexivity].
      unfold final. simpl List.length at 2.
      rewrite Nat.sub_0_r, firstn_all. reflexivity.
  - destruct Hv as [->|(k & -> & _)]; [right; left; reflexivity|].
    right. right. eexists _, _. split; reflexivity.
Qed.

Lemma url_prefix_digit (R : Type) prev d t cs (k : cont R) :
  is_digit d = true -> m URL_PREFIX prev (d :: t) cs k = None.
Proof.
  intro Hd. unfold URL_PREFIX. cbn [m]. rewrite m_Str.
  cbn [startswith list_ascii_of_string]. rewrite (digit_not_h d Hd). reflexivity.
Qed.

Lemma arxiv_match_exact id prev :
  valid_id id ->
  match_at ARXIV_ID_PATTERN prev id = Some (set_cap 1 id no_caps, []).
Proof.
  intro Hid. unfold match_at, ARXIV_ID_PATTERN, Opt.
  cbn [m].
  destruct (valid_id_first id Hid) as (d & t & E & Hd).
  rewrite E at 1. rewrite url_prefix_digit by exact Hd.
  cbn [orelse]. apply (id_group_exact id prev no_caps Hid).
Qed.

(** No match starts at a character that is neither [h] nor a digit. *)
Lemma arxiv_no_match prev c t :
  Ascii.eqb "h" c = false -> is_digit c = false ->
  match_at ARXIV_ID_PATTERN prev (c :: t) = None.
Proof.
  intros Hh Hd. unfold match_at, ARXIV_ID_PATTERN, Opt, URL_PREFIX, ID, Times.
  cbn [m]. rewrite m_Str.
  cbn [startswith list_ascii_of_string]. rewrite Hh.
  cbn. rewrite Hd. reflexivity.
Qed.

Lemma search_from_skip r prev c t :
  match_at r prev (c :: t) = None ->
  search_from r prev (c :: t) = search_from r (Some c) t.
Proof. intro H. cbn [search_from]. rewrite H. reflexivity. Qed.

(** After a URL prefix with a scheme the rest of the pattern goes on. *)
Lemma url_prefix_match (R : Type) w prev t cs (k : cont R) x :
  In w [$"http://arxiv.org/abs/"; $"http://arxiv.org/pdf/"; $"http://arxiv.org/e-print/";
        $"http://www.arxiv.org/abs/"; $"http://www.arxiv.org/pdf/";
        $"http://www.arxiv.org/e-print/";
        $"https://arxiv.org/abs/"; $"https://arxiv.org/pdf/"; $"https://arxiv.org/e-print/";
        $"https://www.arxiv.org/abs/"; $"https://www.arxiv.org/pdf/";
        $"https://www.arxiv.org/e-print/"] ->
  k (Some "/"%char) t cs = Some x ->
  m URL_PREFIX prev (w ++ t) cs k = Some x.
Proof.
  intros Hw Hk. simpl in Hw.
  repeat (destruct Hw as [<-|Hw]; [cbn; rewrite Hk; reflexivity|]).
  contradiction.
Qed.

(** C6. For every valid id, bare or wrapped in any of the URL forms (with
    or without scheme, with or without [www.], under [abs/], [pdf/] or
    [e-print/]), the parser returns exactly the id. *)
Theorem parse_arxiv_id_exact (id w : str) :
  valid_id id ->
  In w ([] :: url_wrappers) ->
  parse_arxiv_id (w ++ id) = Ok id.
Proof.
  intros Hid Hw. unfold parse_arxiv_id.
  rewrite strip_wrapped; [|exact Hid|].
  2:{ cbv [url_wrappers flat_map map app list_ascii_of_string] in Hw. simpl in Hw.
      repeat (destruct Hw as [<-|Hw];
              [first [left; reflexivity | right; eexists _, _; split; reflexivity]|]).
      contradiction. }
  unfold search.
  assert (Hbare : forall prev, search_from ARXIV_ID_PATTERN prev id
                               = Some (set_cap 1 id no_caps, [])).
  { intro prev. destruct (valid_id_first id Hid) as (d & t & E & Hd).
    rewrite E at 1. cbn [search_from]. rewrite <- E.
    rewrite arxiv_match_exact by exact Hid. reflexivity. }
  assert (Hres : search_from ARXIV_ID_PATTERN None (w ++ id)
                 = Some (set_cap 1 id no_caps, [])).
  { destruct Hw as [<-|Hw]; [apply Hbare|].
    cbv [url_wrappers flat_map map app list_ascii_of_string] in Hw. simpl in Hw.
    (* without a scheme: the scan walks over the prefix *)
    do 6 (destruct Hw as [<-|Hw];
          [simpl app; repeat (rewrite search_from_skip by (apply arxiv_no_match; reflexivity));
           apply Hbare|]).
    (* with a scheme: the match starts at once *)
    assert (E : match_at ARXIV_ID_PATTERN None (w ++ id) = Some (set_cap 1 id no_caps, [])).
    { unfold match_at, ARXIV_ID_PATTERN, Opt. cbn [m].
      match goal with |- orelse (m URL_PREFIX None (w ++ id) no_caps ?K) _ = _ =>
        assert (E : m URL_PREFIX None (w ++ id) no_caps K = Some (set_cap 1 id no_caps, []))
      end.
      { apply url_prefix_match; [simpl; tauto|].
        apply (id_group_exact id (Some "/"%char) no_caps Hid). }
      rewrite E. reflexivity. }
    destruct w as [|c w]; [simpl in Hw; exfalso; intuition discriminate|].
    simpl app in *. cbn [search_from]. rewrite E. reflexivity. }
  rewrite Hres. reflexivity.
Qed.

Lemma parse_arxiv_id_exact_example :
  parse_arxiv_id ($"https://www.arxiv.org/e-print/" ++ $"2301.00001v2") = Ok $"2301.00001v2".
Proof.
  apply (parse_arxiv_id_exact $"2301.00001v2" $"https://www.arxiv.org/e-print/").
  - exists $"2301", $"00001", $"v2". repeat split; simpl; try lia.
    right. exists $"2". repeat split; simpl; lia.
  - simpl. tauto.
Defined.

Lemma rep_from_zero (R : Type) p (k : cont R) cs :
  (forall prev s, k prev s cs <> None) ->
  forall s hi prev, rep p 0 hi prev s cs k <> None.
Proof.
  intros Hk s hi prev. destruct s as [|c s]; cbn [rep]; [apply Hk|].
  destruct (p c && may_more hi); [|apply Hk].
  rewrite orelse_none. intros [_ H]. exact (Hk _ _ H).
Qed.

(** A repetition followed by something that always matches succeeds as
    soon as the text has enough characters of the class. *)
Lemma rep_some (R : Type) p (k : cont R) cs b :
  (forall prev s, k prev s cs <> None) ->
  forall a lo hi prev,
    forallb p a = true -> lo <= List.length a -> within hi lo ->
    rep p lo hi prev (a ++ b) cs k <> None.
Proof.
  intro Hk. induction a as [|c a IH]; intros lo hi prev Ha Hlo Hhi.
  - simpl in Hlo. assert (lo = 0) by lia. subst lo. apply rep_from_zero, Hk.
  - destruct lo as [|lo]; [apply rep_from_zero, Hk|].
    simpl in Ha. apply andb_true_iff in Ha. destruct Ha as [Hp Ha].
    simpl app. cbn [rep]. rewrite Hp.
    assert (Hm : may_more hi = true).
    { destruct hi as [[|h]|]; simpl in *; auto; lia. }
    rewrite Hm. cbn [andb pred]. rewrite orelse_none. intros [H _]. revert H.
    apply IH; [exact Ha|simpl in Hlo; lia|].
    destruct hi as [h|]; simpl in *; auto; lia.
Qed.

(** A successful match went through its continuation. *)
Lemma m_continues (R : Type) r :
  forall prev s cs (k : cont R) x,
    m r prev s cs k = Some x -> exists prev' s' cs', k prev' s' cs' = Some x.
Proof.
  induction r as [ | p | r1 IH1 r2 IH2 | r1 IH1 r2 IH2 | lo hi p | n r1 IH1 | | | p | p ];
    intros prev s cs k x H; cbn [m] in H.
  - eauto.
  - destruct s as [|c s]; [discriminate|]. destruct (p c); [eauto|discriminate].
  - apply IH1 in H. destruct H as (p1 & s1 & c1 & H). apply IH2 in H. exact H.
  - apply orelse_some in H. destruct H as [H|[_ H]]; eauto.
  - apply rep_sound in H. destruct H as (a & b & _ & _ & _ & _ & H). eauto.
  - apply IH1 in H. destruct H as (p1 & s1 & c1 & H). eauto.
  - destruct (xorb (word_prev prev) (word_next s)); [eauto|discriminate].
  - destruct prev; [discriminate|eauto].
  - destruct prev as [c|]; [|discriminate]. destruct (p c); [eauto|discriminate].
  - destruct s as [|c s]; [discriminate|]. destruct (p c); [eauto|discriminate].
Qed.

Lemma firstn_consumed (a b : str) :
  firstn (List.length (a ++ b) - List.length b) (a ++ b) = a.
Proof.
  rewrite length_app.
  replace (List.length a + List.length b - List.length b) with (List.length a) by lia.
  apply firstn_length_app.
Qed.

(** What the id group matches is a valid id. *)
Lemma id_group_sound prev s cs cs' rest :
  m (Grp 1 ID) prev s cs final = Some (cs', rest) ->
  exists id, valid_id id /\ s = id ++ rest /\ cs' = set_cap 1 id cs.
Proof.
  unfold ID, Times, Opt. cbn [m]. intro H.
  apply rep_sound in H. destruct H as (yymm & b1 & E1 & Dy & Hy1 & Hy2 & H).
  cbn [within] in Hy2. cbn [m Lit] in H.
  destruct b1 as [|x b1]; [discriminate|].
  destruct (Ascii.eqb_spec "." x); [subst x|discriminate].
  apply rep_sound in H. destruct H as (num & b2 & E2 & Dn & Hn1 & Hn2 & H).
  cbn [within] in Hn2. subst b1.
  apply orelse_some in H. destruct H as [H|[_ H]].
  - destruct b2 as [|x b2]; [discriminate|].
    destruct (Ascii.eqb_spec "v" x); [subst x|discriminate].
    apply rep_sound in H. destruct H as (k & b3 & E3 & Dk & Hk1 & Hk2 & H).
    cbn [within] in Hk2. subst b2. unfold final in H. injection H as <- <-.
    exists (yymm ++ $"." ++ num ++ "v"%char :: k).
    assert (E : s = (yymm ++ $"." ++ num ++ "v"%char :: k) ++ b3).
    { rewrite E1. repeat (rewrite <- app_assoc; simpl). reflexivity. }
    split; [|split; [exact E|]].
    + exists yymm, num, ("v"%char :: k). repeat split; auto; try lia.
      right. exists k. repeat split; auto.
    + rewrite E at 1 2. rewrite firstn_consumed. reflexivity.
  - unfold final in H. injection H as <- <-.
    exists (yymm ++ $"." ++ num).
    assert (E : s = (yymm ++ $"." ++ num) ++ b2).
    { rewrite E1. repeat (rewrite <- app_assoc; simpl). reflexivity. }
    split; [|split; [exact E|]].
    + exists yymm, num, []. rewrite app_nil_r. repeat split; auto; try lia.
    + rewrite E at 1 2. rewrite firstn_consumed. reflexivity.
Qed.

(** The id group matches at the start of any text that begins with a
    valid id. *)
Lemma id_group_some id post prev cs :
  valid_id id -> m (Grp 1 ID) prev (id ++ post) cs final <> None.
Proof.
  intros (yymm & num & ver & -> & Hy & Dy & Hn & Dn & Hv).
  unfold ID, Times, Opt. cbn [m].
  rewrite <- !app_assoc.
  match goal with |- rep _ _ _ _ _ _ ?K <> None =>
    destruct (K (after yymm prev) ($"." ++ num ++ ver ++ post) cs) as [x|] eqn:E
  end.
  - rewrite (rep_greedy _ is_digit _ cs x _ yymm 4 (Some 4) prev Dy);
      [discriminate|lia|simpl; lia|exact E|left; rewrite Hy; reflexivity].
  - exfalso. revert E. cbn [app list_ascii_of_string m Lit]. cbn [Ascii.eqb Bool.eqb].
    apply rep_some; [|exact Dn|lia|simpl; lia].
    intros p' s'. rewrite orelse_none. intros [_ H]. discriminate.
Qed.

Lemma arxiv_match_sound prev s cs rest :
  match_at ARXIV_ID_PATTERN prev s = Some (cs, rest) -> valid_id (group cs 1).
Proof.
  unfold match_at, ARXIV_ID_PATTERN. cbn [m]. intro H.
  apply m_continues in H. destruct H as (p1 & s1 & c1 & H).
  apply (id_group_sound p1 s1 c1 cs rest) in H.
  destruct H as (id & Hid & _ & ->).
  unfold group, set_cap. simpl. exact Hid.
Qed.

Lemma arxiv_match_some prev id post :
  valid_id id -> match_at ARXIV_ID_PATTERN prev (id ++ post) <> None.
Proof.
  intro Hid. unfold match_at, ARXIV_ID_PATTERN, Opt. cbn [m].
  rewrite orelse_none. intros [_ H]. revert H.
  apply (id_group_some id post prev no_caps Hid).
Qed.

(** The scan finds a match when one exists further on. *)
Lemma search_from_some r s :
  forall pre prev,
    match_at r (after pre prev) s <> None -> search_from r prev (pre ++ s) <> None.
Proof.
  induction pre as [|c pre IH]; intros prev H.
  - simpl app. destruct s; cbn [search_from]; rewrite orelse_none; tauto.
  - simpl app. cbn [search_from]. rewrite orelse_none. intros [_ H']. revert H'.
    apply IH. exact H.
Qed.

(** The scan returns the leftmost match. *)
Lemma search_from_leftmost r x :
  forall s prev,
    search_from r prev s = Some x ->
    exists a b, s = a ++ b /\ match_at r (after a prev) b = Some x /\
                forall a1 a2, a = a1 ++ a2 -> a2 <> [] ->
                              match_at r (after a1 prev) (a2 ++ b) = None.
Proof.
  induction s as [|c s IH]; intros prev H.
  - exists [], []. cbn [search_from] in H. apply orelse_some in H.
    destruct H as [H|[_ H]]; [|discriminate].
    repeat split; auto. intros a1 a2 E. symmetry in E. apply app_eq_nil in E. tauto.
  - cbn [search_from] in H. apply orelse_some in H. destruct H as [H|[Hn H]].
    + exists [], (c :: s). repeat split; auto.
      intros a1 a2 E. symmetry in E. apply app_eq_nil in E. tauto.
    + apply IH in H. destruct H as (a & b & -> & Hm & Hl).
      exists (c :: a), b. repeat split; auto.
      intros a1 a2 E Ha2. destruct a1 as [|c1 a1].
      * simpl in E. subst a2. exact Hn.
      * simpl in E. injection E as <- E. simpl. apply Hl; auto.
Qed.

Lemma lstrip_suffix b :
  (exists c t, b = c :: t /\ is_space c = false) ->
  forall a, exists a', lstrip (a ++ b) = a' ++ b.
Proof.
  intros (c & t & -> & Hc). induction a as [|x a [a' IH]].
  - exists []. apply lstrip_clean, Hc.
  - simpl. destruct (is_space x).
    + exists a'. exact IH.
    + exists (x :: a). reflexivity.
Qed.

Lemma rstrip_prefix a :
  (exists t c, a = t ++ [c] /\ is_space c = false) ->
  forall b, exists b', rstrip (a ++ b) = a ++ b'.
Proof.
  intros (t & c & -> & Hc) b. unfold rstrip.
  rewrite rev_app_distr.
  destruct (lstrip_suffix (rev (t ++ [c]))) with (a := rev b) as [b' E].
  { rewrite rev_app_distr. simpl. eauto. }
  rewrite E. exists (rev b'). rewrite rev_app_distr, rev_involutive. reflexivity.
Qed.

(** Stripping blanks leaves an embedded id in place. *)
Lemma strip_keeps_id pre id post :
  valid_id id -> exists pre' post', strip (pre ++ id ++ post) = pre' ++ id ++ post'.
Proof.
  intro Hid. unfold strip.
  destruct (valid_id_first id Hid) as (d & t & E & Hd).
  destruct (lstrip_suffix (id ++ post)) with (a := pre) as [pre' E1].
  { exists d, (t ++ post). rewrite E. split; [reflexivity|apply digit_not_space, Hd]. }
  rewrite E1.
  destruct (valid_id_last id Hid) as (init & d' & E' & Hd').
  destruct (rstrip_prefix (pre' ++ id)) with (b := post) as [post' E2].
  { exists (pre' ++ init), d'. rewrite E', app_assoc. split; [reflexivity|].
    apply digit_not_space, Hd'. }
  exists pre', post'. rewrite app_assoc, E2, <- app_assoc. reflexivity.
Qed.

(** C9. On any input that contains a valid id somewhere, the parser
    succeeds: it returns the id group of the leftmost match of the pattern
    in the stripped input, and that is a valid id. *)
Theorem parse_arxiv_id_embedded (pre id post : str) :
  valid_id id ->
  exists a b cs rest,
    strip (pre ++ id ++ post) = a ++ b /\
    match_at ARXIV_ID_PATTERN (after a None) b = Some (cs, rest) /\
    (forall a1 a2, a = a1 ++ a2 -> a2 <> [] ->
                   match_at ARXIV_ID_PATTERN (after a1 None) (a2 ++ b) = None) /\
    valid_id (group cs 1) /\
    parse_arxiv_id (pre ++ id ++ post) = Ok (group cs 1).
Proof.
  intro Hid. unfold parse_arxiv_id, search.
  destruct (strip_keeps_id pre id post Hid) as (pre' & post' & E).
  destruct (search_from ARXIV_ID_PATTERN None (strip (pre ++ id ++ post)))
    as [[cs rest]|] eqn:Hs.
  - destruct (search_from_leftmost _ _ _ _ Hs) as (a & b & Hab & Hm & Hl).
    exists a, b, cs, rest. repeat split; auto.
    apply arxiv_match_sound in Hm. exact Hm.
  - exfalso. revert Hs. rewrite E. apply search_from_some.
    apply arxiv_match_some, Hid.
Qed.

Lemma parse_arxiv_id_embedded_example :
  parse_arxiv_id $"xx2301.00001yy" = Ok $"2301.00001" /\
  exists a b cs rest,
    strip ($"xx" ++ $"2301.00001" ++ $"yy") = a ++ b /\
    match_at ARXIV_ID_PATTERN (after a None) b = Some (cs, rest) /\
    (forall a1 a2, a = a1 ++ a2 -> a2 <> [] ->
                   match_at ARXIV_ID_PATTERN (after a1 None) (a2 ++ b) = None) /\
    valid_id (group cs 1) /\
    parse_arxiv_id ($"xx" ++ $"2301.00001" ++ $"yy") = Ok (group cs 1).
Proof.
  split; [reflexivity|].
  apply (parse_arxiv_id_embedded $"xx" $"2301.00001" $"yy").
  exists $"2301", $"00001", []. repeat split; simpl; try lia. left. reflexivity.
Defined.

(** ** The two-column switch and the document-class line *)

(** C1. A blank between [\twocolumn] and its bracketed argument: the
    main-document pass strips the blank and then the brackets; the
    style-file pass takes [m.group(1)[1:-1]] without stripping, so it
    removes the blank and the closing bracket and leaves the opening one.
    Without the blank both passes give [\onecolumn \maketitle]. *)
Theorem twocolumn_blank_before_bracket :
  rewrite_sty $"\twocolumn [\maketitle]" = $"\onecolumn [\maketitle" /\
  rewrite_line $"\twocolumn [\maketitle]" = $"\onecolumn \maketitle" /\
  rewrite_sty $"\twocolumn[\maketitle]" = $"\onecolumn \maketitle" /\
  rewrite_line $"\twocolumn[\maketitle]" = $"\onecolumn \maketitle".
Proof. repeat split; vm_compute; reflexivity. Qed.

(** C3. The line of the specification's example loses its three options
    and gets [onecolumn]; when two stripped options stand before a kept
    one, one of the two commas they leave stays at the head of the list. *)
Theorem documentclass_leading_comma_left :
  rewrite_documentclass $"\documentclass[11pt,twocolumn,a4paper]{article}" =
    $"\documentclass[onecolumn,]{article}" /\
  rewrite_documentclass $"\documentclass{article}" = $"\documentclass[onecolumn]{article}" /\
  strip_options $"\documentclass[10pt,twocolumn,journal]{IEEEtran}" =
    $"\documentclass[,journal]{IEEEtran}" /\
  rewrite_documentclass $"\documentclass[10pt,twocolumn,journal]{IEEEtran}" =
    $"\documentclass[onecolumn,,journal]{IEEEtran}".
Proof. repeat split; vm_compute; reflexivity. Qed.

(** ** Lines that begin with the marker *)

(** A substitution whose matches begin with [a0 a1] and whose replacements
    begin with [b0 b1] changes no answer of [startswith M], when no suffix
    of [M] begins with either pair. *)
Lemma startswith_sub r repl M a0 a1 b0 b1 :
  (forall prev s cs rest, match_at r prev s = Some (cs, rest) -> exists t, s = a0 :: a1 :: t) ->
  (forall cs, exists t, repl cs = b0 :: b1 :: t) ->
  never_begins M a0 a1 = true ->
  never_begins M b0 b1 = true ->
  forall prev s, startswith M (sub_from r repl prev s 0) = startswith M s.
Proof.
  intros Hm Hr. induction M as [|x M IH]; intros Ha Hb prev s; [reflexivity|].
  cbn [never_begins] in Ha, Hb.
  apply andb_true_iff in Ha. destruct Ha as [Ha Ha'].
  apply andb_true_iff in Hb. destruct Hb as [Hb Hb'].
  assert (Hno : forall c0 c1 t, 
             negb (Ascii.eqb x c0) ||
             match M with y :: _ => negb (Ascii.eqb y c1) | [] => false end = true ->
             startswith (x :: M) (c0 :: c1 :: t) = false).
  { intros c0 c1 t H. cbn [startswith]. destruct (Ascii.eqb x c0); [|reflexivity].
    simpl in H. destruct M as [|y M']; [discriminate|].
    cbn [startswith]. destruct (Ascii.eqb y c1); [discriminate|reflexivity]. }
  destruct s as [|c s].
  - cbn [sub_from]. destruct (match_at r prev []) as [[cs rest]|] eqn:E; [|reflexivity].
    apply Hm in E. destruct E as [t E]. discriminate.
  - cbn [sub_from]. destruct (match_at r prev (c :: s)) as [[cs rest]|] eqn:E.
    + apply Hm in E. destruct E as [t E]. rewrite E.
      destruct (Hr cs) as [t' ->]. simpl app.
      rewrite (Hno a0 a1 t Ha). apply (Hno b0 b1 _ Hb).
    + cbn [startswith]. rewrite (IH Ha' Hb'). reflexivity.
Qed.

Lemma newgeometry_begins prev s cs rest :
  match_at NEWGEOMETRY prev s = Some (cs, rest) -> exists t, s = "\"%char :: "n"%char :: t.
Proof.
  unfold match_at, NEWGEOMETRY. cbn [m]. rewrite m_Str.
  destruct (startswith $"\newgeometry" s) eqn:E; [|discriminate].
  apply startswith_split in E. intros _. rewrite E. eexists. reflexivity.
Qed.

Lemma twocolumn_begins prev s cs rest :
  match_at TWOCOLUMN prev s = Some (cs, rest) -> exists t, s = "\"%char :: "t"%char :: t.
Proof.
  unfold match_at, TWOCOLUMN. cbn [m]. rewrite m_Str.
  destruct (startswith $"\twocolumn" s) eqn:E; [|discriminate].
  apply startswith_split in E. intros _. rewrite E. eexists. reflexivity.
Qed.

Lemma replace_twocolumn_tex_begins cs :
  exists t, replace_twocolumn_tex cs = "\"%char :: "o"%char :: t.
Proof.
  unfold replace_twocolumn_tex. destruct (group_true cs 1); eexists; reflexivity.
Qed.

(** The loop over the lines keeps a marker at the start of a line there
    and puts none at the start of another line. *)
Lemma rewrite_line_startswith l :
  startswith BEGIN_DOCUMENT (rewrite_line l) = startswith BEGIN_DOCUMENT l.
Proof.
  unfold rewrite_line, sub.
  rewrite (startswith_sub TWOCOLUMN replace_twocolumn_tex BEGIN_DOCUMENT
             "\" "t" "\" "o" twocolumn_begins replace_twocolumn_tex_begins
             eq_refl eq_refl).
  apply (startswith_sub NEWGEOMETRY _ BEGIN_DOCUMENT "\" "n" "%" " " newgeometry_begins);
    [|reflexivity|reflexivity].
  intro cs. eexists. reflexivity.
Qed.

Lemma begindocs_from_rewrite_line src :
  forall n, begindocs_from n (map rewrite_line src) = begindocs_from n src.
Proof.
  induction src as [|l src IH]; intro n; [reflexivity|].
  cbn [map begindocs_from]. rewrite rewrite_line_startswith, !IH. reflexivity.
Qed.

Lemma begindocs_from_none src :
  forallb no_marker_at_start src = true -> forall n, begindocs_from n src = [].
Proof.
  induction src as [|l src IH]; intros H n; [reflexivity|].
  simpl in H. apply andb_true_iff in H. destruct H as [Hl Hs].
  unfold no_marker_at_start in Hl. apply negb_true_iff in Hl.
  cbn [begindocs_from]. rewrite Hl. apply IH, Hs.
Qed.

(** A single index means a single line that begins with the marker. *)
Lemma begindocs_from_single src :
  forall n i,
    begindocs_from n src = [i] ->
    exists before line after,
      src = before ++ line :: after /\ i = n + List.length before /\
      startswith BEGIN_DOCUMENT line = true /\
      forallb no_marker_at_start before = true /\
      forallb no_marker_at_start after = true.
Proof.
  induction src as [|l src IH]; intros n i H; [discriminate|].
  cbn [begindocs_from] in H. destruct (startswith BEGIN_DOCUMENT l) eqn:E.
  - injection H as <- H. exists [], l, src. repeat split; auto.
    clear IH E. revert H. generalize (S n).
    induction src as [|l' src IH]; intros k H; [reflexivity|].
    cbn [begindocs_from] in H. cbn [forallb]. unfold no_marker_at_start at 1.
    destruct (startswith BEGIN_DOCUMENT l'); [discriminate|].
    simpl. apply (IH (S k) H).
  - apply IH in H. destruct H as (before & line & after & -> & -> & Hl & Hb & Ha).
    exists (l :: before), line, after.
    split; [reflexivity|]. split; [simpl; lia|]. split; [exact Hl|]. split; [|exact Ha].
    cbn [forallb]. unfold no_marker_at_start at 1. rewrite E. exact Hb.
Qed.

Lemma begindocs_from_In src :
  forall n j,
    In j (begindocs_from n src) <->
    n <= j /\ exists line, nth_error src (j - n) = Some line /\
                           startswith BEGIN_DOCUMENT line = true.
Proof.
  induction src as [|l src IH]; intros n j.
  - simpl. split; [tauto|]. intros [_ (line & H & _)].
    destruct (j - n); discriminate.
  - cbn [begindocs_from].
    assert (Hrest : In j (begindocs_from (S n) src) <->
                    n < j /\ exists line, nth_error (l :: src) (j - n) = Some line /\
                                          startswith BEGIN_DOCUMENT line = true).
    { rewrite IH. split.
      - intros [Hj (line & H1 & H2)]. split; [lia|]. exists line. split; [|exact H2].
        replace (j - n) with (S (j - S n)) by lia. exact H1.
      - intros [Hj (line & H1 & H2)]. split; [lia|]. exists line. split; [|exact H2].
        replace (j - n) with (S (j - S n)) in H1 by lia. exact H1. }
    destruct (startswith BEGIN_DOCUMENT l) eqn:E.
    + cbn [In]. rewrite Hrest. split.
      * intros [<-|[Hj H]]; [|split; [lia|exact H]].
        split; [lia|]. exists l. rewrite Nat.sub_diag. auto.
      * intros [Hj H]. destruct (Nat.eq_dec n j) as [->|Hne]; [left; reflexivity|].
        right. split; [lia|exact H].
    + rewrite Hrest. split.
      * intros [Hj H]. split; [lia|exact H].
      * intros [Hj (line & H1 & H2)].
        destruct (Nat.eq_dec n j) as [->|Hne].
        -- rewrite Nat.sub_diag in H1. simpl in H1. injection H1 as ->. congruence.
        -- split; [lia|]. exists line. auto.
Qed.

(** C10 (as amended). With [l0] the first kept line and [rest] the kept
    lines after it: a later line is counted exactly when it begins with
    [\begin{document}] as it stands in the file, the first line when it
    does after the document-class rewriting; and the structure error is
    raised exactly when the count is not one.  So a marker that is indented
    or has text before it on a later line is not counted. *)
Theorem marker_counted_at_line_start (is_landscape : bool) (settings : list (str * str))
    (text l0 : str) (rest : list str) :
  kept_lines text = l0 :: rest ->
  (exists src, rewritten_lines text = Ok src /\
               begindocs src = begindocs (rewrite_documentclass l0 :: rest)) /\
  (forall i, In (S i) (begindocs (rewrite_documentclass l0 :: rest)) <->
             exists line, nth_error rest i = Some line /\
                          startswith BEGIN_DOCUMENT line = true) /\
  (In 0 (begindocs (rewrite_documentclass l0 :: rest)) <->
   startswith BEGIN_DOCUMENT (rewrite_documentclass l0) = true) /\
  (List.length (begindocs (rewrite_documentclass l0 :: rest)) = 1 ->
   exists out, rewrite_tex is_landscape settings text = Ok out) /\
  (List.length (begindocs (rewrite_documentclass l0 :: rest)) <> 1 ->
   rewrite_tex is_landscape settings text =
   Raise (ValueError_BeginDocument
            (List.length (begindocs (rewrite_documentclass l0 :: rest))))) /\
  (startswith BEGIN_DOCUMENT (rewrite_documentclass l0) = false ->
   forallb no_marker_at_start rest = true ->
   rewrite_tex is_landscape settings text = Raise (ValueError_BeginDocument 0)).
Proof.
  intro Hk.
  assert (Hsrc : rewritten_lines text
                 = Ok (map rewrite_line (rewrite_documentclass l0 :: rest))).
  { unfold rewritten_lines. unfold kept_lines in Hk. rewrite Hk. reflexivity. }
  assert (Hb : begindocs (map rewrite_line (rewrite_documentclass l0 :: rest))
               = begindocs (rewrite_documentclass l0 :: rest)).
  { apply begindocs_from_rewrite_line. }
  assert (Hraise : List.length (begindocs (rewrite_documentclass l0 :: rest)) <> 1 ->
                   rewrite_tex is_landscape settings text =
                   Raise (ValueError_BeginDocument
                            (List.length (begindocs (rewrite_documentclass l0 :: rest))))).
  { intro Hn. unfold rewrite_tex. rewrite Hsrc, Hb.
    destruct (begindocs (rewrite_documentclass l0 :: rest)) as [|i [|j l]];
      try reflexivity. exfalso. apply Hn. reflexivity. }
  split; [eauto|]. split; [|split; [|split; [|split; [exact Hraise|]]]].
  - intro i. unfold begindocs. rewrite begindocs_from_In.
    rewrite Nat.sub_0_r. cbn [nth_error]. split; [tauto|]. intro H. split; [lia|exact H].
  - unfold begindocs. rewrite begindocs_from_In. cbn [Nat.sub nth_error]. split.
    + intros [_ (line & H1 & H2)]. injection H1 as <-. exact H2.
    + intro H. split; [lia|]. eauto.
  - intro Hn. unfold rewrite_tex. rewrite Hsrc, Hb.
    destruct (begindocs (rewrite_documentclass l0 :: rest)) as [|i [|j l]];
      try discriminate. eauto.
  - intros H0 Hr.
    assert (E : begindocs (rewrite_documentclass l0 :: rest) = []).
    { unfold begindocs. cbn [begindocs_from]. rewrite H0. apply begindocs_from_none, Hr. }
    rewrite Hraise; rewrite E; [reflexivity|discriminate].
Qed.

Lemma marker_counted_at_line_start_example :
  rewrite_tex false [] indented_marker_doc = Raise (ValueError_BeginDocument 0).
Proof.
  apply (marker_counted_at_line_start false [] indented_marker_doc
           $"\documentclass{article}"
           [$"  \begin{document}"; $"Hello"; $"\end{document}"]);
    reflexivity.
Defined.

(** The claim C10 as stated fails on the first kept line: text in front of
    the marker can be a point size, which the document-class rewriting
    deletes before the count. *)
Lemma marker_after_point_size_counted :
  occurrences BEGIN_DOCUMENT point_size_marker_doc = 1 /\
  forallb no_marker_at_start (kept_lines point_size_marker_doc) = true /\
  rewritten_lines point_size_marker_doc =
    Ok [$"\begin{document}\documentclass[onecolumn]{article}"; $"Hello"] /\
  (exists out, rewrite_tex false [] point_size_marker_doc = Ok out) /\
  snd (process_tex sample_env false [] (one_main point_size_marker_doc)) = Ok $"main.pdf".
Proof.
  split; [reflexivity|]. split; [reflexivity|]. split; [vm_compute; reflexivity|].
  split; [eexists|]; vm_compute; reflexivity.
Qed.

(** ** The inserted lines *)

Lemma insert_at (A : Type) (before after : list A) x :
  insert (List.length before) x (before ++ after) = before ++ x :: after.
Proof.
  unfold insert. rewrite firstn_length_app, skipn_length_app. reflexivity.
Qed.

Lemma insert_settings_at is_landscape settings before after :
  insert_settings is_landscape settings (List.length before) (before ++ after) =
  before ++
  (if is_landscape then [$"\usepackage{pdflscape}" ++ [nl]] else []) ++
  [ $"\pagestyle{empty}" ++ [nl];
    $"\usepackage{times}" ++ [nl];
    $"\makeatletter\@ifpackageloaded{geometry}{}{\usepackage{geometry}}\makeatother" ++ [nl];
    $"\geometry{" ++ geometry_str settings ++ $"}" ++ [nl] ] ++
  after.
Proof.
  unfold insert_settings. cbv zeta.
  rewrite !(insert_at str before).
  destruct is_landscape; reflexivity.
Qed.

(** C2 (as amended). When the main file is rewritten, the lines are
    inserted just before the one line that begins with [\begin{document}],
    each as a line of its own that ends in a newline, in this order: the
    landscape import (in landscape mode only), the empty page style, the
    serif font, the conditional load of the geometry package, and the
    geometry settings, the comma-joined [key=value] pairs of the mapping;
    the mapping [convert] builds gives every value the suffix [in]. *)
Theorem settings_inserted_before_marker (is_landscape : bool) (settings : list (str * str))
    (text out : str) :
  rewrite_tex is_landscape settings text = Ok out ->
  (exists before marker_line after,
     rewritten_lines text = Ok (before ++ marker_line :: after) /\
     startswith BEGIN_DOCUMENT marker_line = true /\
     out = join [nl] (map scale_line
             (before ++
              (if is_landscape then [$"\usepackage{pdflscape}" ++ [nl]] else []) ++
              [ $"\pagestyle{empty}" ++ [nl];
                $"\usepackage{times}" ++ [nl];
                $"\makeatletter\@ifpackageloaded{geometry}{}{\usepackage{geometry}}\makeatother"
                  ++ [nl];
                $"\geometry{" ++
                  join $"," (map (fun kv => fst kv ++ $"=" ++ snd kv) settings) ++
                  $"}" ++ [nl] ] ++
              marker_line :: after))) /\
  (forall env w h mg,
     geometry_str (geometric_settings env w h mg) =
     $"paperwidth=" ++ int_repr w ++ $"in,paperheight=" ++ int_repr h ++
     $"in,margin=" ++ float_repr env mg ++ $"in").
Proof.
  intro H. split.
  - apply rewrite_tex_ok in H. destruct H as (src & i & Hsrc & Hb & ->).
    apply begindocs_from_single in Hb.
    destruct Hb as (before & line & after & -> & -> & Hl & _ & _).
    exists before, line, after. split; [exact Hsrc|]. split; [exact Hl|].
    simpl Nat.add. rewrite insert_settings_at. reflexivity.
  - intros env w h mg. unfold geometry_str, geometric_settings.
    cbn [map join fst snd]. rewrite <- !app_assoc. reflexivity.
Qed.

Lemma settings_inserted_before_marker_example :
  (exists before marker_line after,
     rewritten_lines minimal_doc = Ok (before ++ marker_line :: after) /\
     startswith BEGIN_DOCUMENT marker_line = true /\
     join [nl]
       [ $"\documentclass[onecolumn]{article}";
         $"\usepackage{pdflscape}" ++ [nl];
         $"\pagestyle{empty}" ++ [nl];
         $"\usepackage{times}" ++ [nl];
         $"\makeatletter\@ifpackageloaded{geometry}{}{\usepackage{geometry}}\makeatother" ++ [nl];
         $"\geometry{paperwidth=6in,paperheight=4in}" ++ [nl];
         $"\begin{document}"; $"Hello"; $"\end{document}" ] =
     join [nl] (map scale_line
             (before ++
              (if true then [$"\usepackage{pdflscape}" ++ [nl]] else []) ++
              [ $"\pagestyle{empty}" ++ [nl];
                $"\usepackage{times}" ++ [nl];
                $"\makeatletter\@ifpackageloaded{geometry}{}{\usepackage{geometry}}\makeatother"
                  ++ [nl];
                $"\geometry{" ++
                  join $"," (map (fun kv => fst kv ++ $"=" ++ snd kv)
                               [($"paperwidth", $"6in"); ($"paperheight", $"4in")]) ++
                  $"}" ++ [nl] ] ++
              marker_line :: after))) /\
  (forall env w h mg,
     geometry_str (geometric_settings env w h mg) =
     $"paperwidth=" ++ int_repr w ++ $"in,paperheight=" ++ int_repr h ++
     $"in,margin=" ++ float_repr env mg ++ $"in").
Proof.
  apply (settings_inserted_before_marker true
           [($"paperwidth", $"6in"); ($"paperheight", $"4in")] minimal_doc).
  vm_compute. reflexivity.
Defined.

(** The claim C2 as stated fails: the empty page style comes before the
    serif font, not after it. *)
Lemma inserted_lines_order_differs :
  insert_settings false [] 1 [$"\documentclass[onecolumn]{article}"; BEGIN_DOCUMENT] =
    [ $"\documentclass[onecolumn]{article}";
      $"\pagestyle{empty}" ++ [nl];
      $"\usepackage{times}" ++ [nl];
      $"\makeatletter\@ifpackageloaded{geometry}{}{\usepackage{geometry}}\makeatother" ++ [nl];
      $"\geometry{}" ++ [nl];
      BEGIN_DOCUMENT ] /\
  insert_settings false [] 1 [$"\documentclass[onecolumn]{article}"; BEGIN_DOCUMENT] <>
    [$"\documentclass[onecolumn]{article}"] ++ spec_inserted_lines false [] ++ [BEGIN_DOCUMENT].
Proof.
  split; [reflexivity|]. vm_compute. intro H. discriminate H.
Qed.

(** ** The structure error *)

Lemma write_styles_trace files : write_styles files = (style_writes files, Ok tt).
Proof.
  induction files as [|[name content] files IH]; [reflexivity|].
  cbn [write_styles]. unfold bind, emit. rewrite IH. reflexivity.
Qed.

(** C5 (as amended). For a main file with at least one kept line, the
    conversion fails with the structure error exactly when the number of
    lines that begin with [\begin{document}], counted after the comment and
    blank lines are dropped and the lines are rewritten, is not one; then
    only the style files have been written: the main file is not, the
    compiler is not run, and there is no PDF. *)
Theorem structure_error_iff_count (env : Env) (is_landscape : bool)
    (settings : list (str * str)) (work_dir : Extracted) (texbase text : str)
    (src : list str) :
  find_main (tex_files work_dir) = Some (texbase, text) ->
  rewritten_lines text = Ok src ->
  (List.length (begindocs src) <> 1 ->
   process_tex env is_landscape settings work_dir =
   (style_writes (sty_files work_dir),
    Raise (ValueError_BeginDocument (List.length (begindocs src))))) /\
  (List.length (begindocs src) = 1 ->
   forall n, snd (process_tex env is_landscape settings work_dir) <>
             Raise (ValueError_BeginDocument n)).
Proof.
  intros Hmain Hsrc. unfold process_tex. rewrite write_styles_trace, Hmain.
  unfold rewrite_tex. rewrite Hsrc. split; intro Hn.
  - destruct (begindocs src) as [|i [|j l]]; try (exfalso; apply Hn; reflexivity).
    + cbn. rewrite app_nil_r. reflexivity.
    + cbn. rewrite app_nil_r. reflexivity.
  - destruct (begindocs src) as [|i [|j l]]; try discriminate.
    intro n. unfold compile_latex.
    destruct (bib_present work_dir); destruct (pdf_exists env texbase); cbn; discriminate.
Qed.

Lemma structure_error_iff_count_example :
  (List.length (begindocs [$"\documentclass[onecolumn]{article}"; $"  \begin{document}";
                           $"Hello"; $"\end{document}"]) <> 1 ->
   process_tex sample_env false [] (one_main indented_marker_doc) =
   (style_writes (sty_files (one_main indented_marker_doc)),
    Raise (ValueError_BeginDocument
             (List.length (begindocs [$"\documentclass[onecolumn]{article}";
                                      $"  \begin{document}"; $"Hello"; $"\end{document}"]))))) /\
  (List.length (begindocs [$"\documentclass[onecolumn]{article}"; $"  \begin{document}";
                           $"Hello"; $"\end{document}"]) = 1 ->
   forall n, snd (process_tex sample_env false [] (one_main indented_marker_doc)) <>
             Raise (ValueError_BeginDocument n)).
Proof.
  apply (structure_error_iff_count sample_env false [] (one_main indented_marker_doc)
           $"main" indented_marker_doc).
  - reflexivity.
  - vm_compute. reflexivity.
Defined.

(** The claim C5 as stated fails both ways: a file with exactly one marker,
    indented, gets the structure error, and a file with two markers on one
    line does not; a file with no marker and no kept line ends with
    [IndexError], not with the structure error. *)
Lemma marker_count_is_not_occurrences :
  occurrences BEGIN_DOCUMENT indented_marker_doc = 1 /\
  process_tex sample_env false [] (one_main indented_marker_doc) =
    ([], Raise (ValueError_BeginDocument 0)) /\
  occurrences BEGIN_DOCUMENT doubled_marker_doc = 2 /\
  snd (process_tex sample_env false [] (one_main doubled_marker_doc)) = Ok $"main.pdf" /\
  occurrences BEGIN_DOCUMENT comment_only_doc = 0 /\
  process_tex sample_env false [] (one_main comment_only_doc) = ([], Raise IndexError).
Proof. repeat split; vm_compute; reflexivity. Qed.

(** ** The choice of the main file *)

Lemma split_not_nil sep s : split sep s <> [].
Proof.
  destruct s as [|c s]; simpl; [discriminate|].
  destruct (Ascii.eqb c sep); [discriminate|].
  destruct (split sep s); discriminate.
Qed.

(** The first line is the text before the first newline. *)
Lemma first_line_spec text :
  ~ In nl (first_line text) /\
  exists rest, text = first_line text ++ rest /\ (rest = [] \/ exists r, rest = nl :: r).
Proof.
  unfold first_line. induction text as [|c text [IH1 (rest & IH2 & IH3)]].
  - simpl. split; [tauto|]. exists []. auto.
  - cbn [split]. destruct (Ascii.eqb_spec c nl) as [->|Hc].
    + simpl. split; [tauto|]. exists (nl :: text). split; [reflexivity|]. right. eauto.
    + destruct (split nl text) as [|l ls] eqn:E; [exfalso; exact (split_not_nil _ _ E)|].
      simpl in *. split.
      * intros [H|H]; [congruence|tauto].
      * exists rest. split; [rewrite IH2 at 1; reflexivity|exact IH3].
Qed.

Lemma find_first (A : Type) (f : A -> bool) l :
  match find f l with
  | Some x => exists skipped later,
                l = skipped ++ x :: later /\ f x = true /\
                forallb (fun y => negb (f y)) skipped = true
  | None => forallb (fun y => negb (f y)) l = true
  end.
Proof.
  induction l as [|a l IH]; [reflexivity|].
  simpl. destruct (f a) eqn:E.
  - exists [], l. auto.
  - destruct (find f l) as [x|].
    + destruct IH as (skipped & later & -> & Hx & Hs).
      exists (a :: skipped), later. simpl. rewrite E. auto.
    + simpl. exact IH.
Qed.

(** C7 (as amended). The main file is the first candidate, in the order
    the directory lists them, whose first line, the text before the first
    newline, contains [documentclass]; the candidates before it do not.
    When no candidate's first line contains it, [process_tex] raises the
    missing-main-file error after the style files are written. *)
Theorem main_file_by_first_line (env : Env) (is_landscape : bool)
    (settings : list (str * str)) (work_dir : Extracted) :
  match find_main (tex_files work_dir) with
  | Some main =>
      exists skipped later,
        tex_files work_dir = skipped ++ main :: later /\
        contains $"documentclass" (first_line (snd main)) = true /\
        forallb (fun c => negb (contains $"documentclass" (first_line (snd c)))) skipped = true
  | None =>
      forallb (fun c => negb (contains $"documentclass" (first_line (snd c))))
              (tex_files work_dir) = true /\
      process_tex env is_landscape settings work_dir =
        (style_writes (sty_files work_dir), Raise FileNotFoundError_NoMainTex)
  end /\
  (forall text,
     ~ In nl (first_line text) /\
     exists rest, text = first_line text ++ rest /\ (rest = [] \/ exists r, rest = nl :: r)).
Proof.
  split; [|exact first_line_spec].
  pose proof (find_first _ is_main (tex_files work_dir)) as H.
  unfold find_main. unfold process_tex, find_main.
  destruct (find is_main (tex_files work_dir)) as [main|].
  - exact H.
  - split; [exact H|]. rewrite write_styles_trace. cbn. rewrite app_nil_r. reflexivity.
Qed.

(** The claim C7 as stated fails both ways: a file whose first kept line is
    the document-class declaration is passed over when a blank line stands
    before it, and a file whose first line is a comment that mentions
    [documentclass] is chosen. *)
Lemma first_kept_line_is_not_read :
  spec_is_main ($"main", blank_first_line_doc) = true /\
  process_tex sample_env false [] (one_main blank_first_line_doc) =
    ([], Raise FileNotFoundError_NoMainTex) /\
  spec_is_main ($"notes", commented_first_line_doc) = false /\
  find_main [($"notes", commented_first_line_doc); ($"main", minimal_doc)] =
    Some ($"notes", commented_first_line_doc).
Proof. repeat split; vm_compute; reflexivity. Qed.

(** ** The margin check *)

Lemma float_outside m :
  float_leb m (Finite 0%Q) = true \/ float_leb (Finite 1%Q) m = true ->
  float_ltb (Finite 0%Q) m && float_ltb m (Finite 1%Q) = false.
Proof.
  destruct m as [q|[|]|]; simpl; try tauto; try (intros [H|H]; discriminate).
  intros [H|H]; apply Qle_bool_iff in H.
  - destruct (Qcompare 0%Q q) eqn:E; try reflexivity.
    apply Qlt_alt in E. exfalso. exact (Qlt_not_le _ _ E H).
  - destruct (Qcompare q 1%Q) eqn:E; try (apply andb_false_r).
    apply Qlt_alt in E. exfalso. exact (Qlt_not_le _ _ E H).
Qed.

(** C8. With a margin [m <= 0] or [m >= 1], [main] ends with the usage
    error (exit code 2) having done nothing but configure logging: no
    request is sent and nothing is written.  So on every run, whatever is
    sent or written comes after a margin check that passed. *)
Theorem margin_checked_first (env : Env) (args : Args) :
  (float_leb (margin args) (Finite 0%Q) = true \/
   float_leb (Finite 1%Q) (margin args) = true ->
   main env args = ([LogConfig (verbose args)], Exit 2)) /\
  (forall e, In e (fst (main env args)) -> touches_network_or_files e = true ->
             float_ltb (Finite 0%Q) (margin args) = true /\
             float_ltb (margin args) (Finite 1%Q) = true).
Proof.
  split.
  - intro H. unfold main. rewrite (float_outside _ H). reflexivity.
  - intros e He Ht. unfold main in He.
    destruct (float_ltb (Finite 0%Q) (margin args) && float_ltb (margin args) (Finite 1%Q))
      eqn:E.
    + apply andb_true_iff in E. exact E.
    + simpl in He. destruct He as [<-|[]]. discriminate.
Qed.

Lemma margin_checked_first_example :
  main sample_env (sample_args (Finite 1%Q)) = ([LogConfig false], Exit 2) /\
  main sample_env (sample_args (Finite 0%Q)) = ([LogConfig false], Exit 2) /\
  main sample_env (sample_args (Finite (-1 # 2)%Q)) = ([LogConfig false], Exit 2).
Proof.
  split; [|split].
  - apply (proj1 (margin_checked_first sample_env (sample_args (Finite 1%Q)))).
    right. reflexivity.
  - apply (proj1 (margin_checked_first sample_env (sample_args (Finite 0%Q)))).
    left. reflexivity.
  - apply (proj1 (margin_checked_first sample_env (sample_args (Finite (-1 # 2)%Q)))).
    left. reflexivity.
Defined.

(** * Further properties of the code *)

(** ** The identifier parser, both ways *)

Lemma lstrip_is_suffix s : exists l, s = l ++ lstrip s.
Proof.
  induction s as [|c s [l IH]]; [exists []; reflexivity|].
  simpl. destruct (is_space c).
  - exists (c :: l). simpl. f_equal. exact IH.
  - exists []. reflexivity.
Qed.

Lemma rstrip_is_prefix s : exists r, s = rstrip s ++ r.
Proof.
  unfold rstrip. destruct (lstrip_is_suffix (rev s)) as [l E].
  exists (rev l). rewrite <- rev_app_distr, <- E, rev_involutive. reflexivity.
Qed.

Lemma strip_is_infix s : exists l r, s = l ++ strip s ++ r.
Proof.
  unfold strip. destruct (lstrip_is_suffix s) as [l E].
  destruct (rstrip_is_prefix (lstrip s)) as [r E'].
  exists l, r. rewrite <- E'. exact E.
Qed.

Lemma parse_arxiv_id_ok s id :
  parse_arxiv_id s = Ok id -> valid_id id /\ exists a b, s = a ++ id ++ b.
Proof.
  unfold parse_arxiv_id, search.
  destruct (search_from ARXIV_ID_PATTERN None (strip s)) as [[cs rest]|] eqn:Hs;
    [|discriminate].
  intro H. injection H as <-.
  apply search_from_leftmost in Hs. destruct Hs as (a & b & E & Hm & _).
  unfold match_at, ARXIV_ID_PATTERN in Hm. cbn [m] in Hm.
  apply m_continues_later in Hm. destruct Hm as (p1 & s1 & c1 & u & Hm & ->).
  apply (id_group_sound p1 s1 c1 cs rest) in Hm.
  destruct Hm as (id & Hid & -> & ->).
  unfold group, set_cap. simpl. split; [exact Hid|].
  destruct (strip_is_infix s) as (l & r & Es).
  exists (l ++ a ++ u), (rest ++ r).
  rewrite Es at 1. rewrite E. rewrite <- !app_assoc. reflexivity.
Qed.

Lemma parse_arxiv_id_raise s e :
  parse_arxiv_id s = Raise e ->
  e = ValueError_InvalidId s /\ forall a id b, valid_id id -> s <> a ++ id ++ b.
Proof.
  unfold parse_arxiv_id, search.
  destruct (search_from ARXIV_ID_PATTERN None (strip s)) as [[cs rest]|] eqn:Hs;
    [discriminate|].
  intro H. injection H as <-. split; [reflexivity|]. intros a id b Hid ->.
  destruct (strip_keeps_id a id b Hid) as (pre' & post' & E).
  revert Hs. rewrite E. apply search_from_some, arxiv_match_some, Hid.
Qed.

(** X1. [parse_arxiv_id] returns an id exactly when its input contains a
    valid id: the result is a valid id that occurs in the input, and when
    it raises, the error carries the input and no valid id occurs in it. *)
Theorem parse_arxiv_id_iff_contains (s : str) :
  match parse_arxiv_id s with
  | Ok id => valid_id id /\ exists a b, s = a ++ id ++ b
  | Raise e =>
      e = ValueError_InvalidId s /\
      forall a id b, valid_id id -> s <> a ++ id ++ b
  end.
Proof.
  destruct (parse_arxiv_id s) as [id|e] eqn:E.
  - apply parse_arxiv_id_ok, E.
  - apply parse_arxiv_id_raise, E.
Qed.

(** ** The prerequisites *)

(** X2. [check_prerequisite] succeeds exactly when [pdflatex --version]
    returns 0 and, in landscape mode, [pdftk --version] does too; [pdftk]
    is probed only in landscape mode and only after [pdflatex] passed, and
    nothing else is run. *)
Theorem check_prerequisite_iff (env : Env) (is_landscape : bool) :
  (snd (check_prerequisite env is_landscape) = Ok tt <->
   run_version env $"pdflatex" = Some 0%Z /\
   (is_landscape = true -> run_version env $"pdftk" = Some 0%Z)) /\
  (In (Run [$"pdftk"; $"--version"]) (fst (check_prerequisite env is_landscape)) <->
   is_landscape = true /\ run_version env $"pdflatex" = Some 0%Z) /\
  (forall e, In e (fst (check_prerequisite env is_landscape)) ->
             e = Run [$"pdflatex"; $"--version"] \/ e = Run [$"pdftk"; $"--version"]).
Proof.
  unfold check_prerequisite, version_check, bind, emit, ret, raise.
  destruct (run_version env $"pdflatex") as [rc|] eqn:E1;
    [destruct (Z.eqb_spec rc 0) as [->|Hrc]|];
    (destruct is_landscape;
     [destruct (run_version env $"pdftk") as [rc2|] eqn:E2;
      [destruct (Z.eqb_spec rc2 0) as [->|Hrc2]|]|]);
    cbn; (split; [|split]); try split; intros;
    repeat match goal with H : _ /\ _ |- _ => destruct H | H : _ \/ _ |- _ => destruct H
                      | H : False |- _ => destruct H end;
    subst; try discriminate; try congruence; auto;
    try (split; [congruence|intro; congruence]);
    try match goal with H : ?x = true -> _ |- _ => specialize (H eq_refl); congruence end.
Qed.

(** ** The title and the download *)

Lemma blanks_no_match prev c s :
  is_space c = false -> match_at BLANKS prev (c :: s) = None.
Proof. intro H. unfold match_at, BLANKS, Plus. cbn. rewrite H. reflexivity. Qed.

Lemma blanks_nil prev : match_at BLANKS prev [] = None.
Proof. reflexivity. Qed.

Lemma blanks_match prev ws rest :
  ws <> [] -> forallb is_space ws = true -> first_is_space rest = false ->
  match_at BLANKS prev (ws ++ rest) = Some (no_caps, rest).
Proof.
  intros Hn Hw Hr. unfold match_at, BLANKS, Plus. cbn [m].
  apply rep_greedy; [exact Hw| |exact I|reflexivity|].
  - destruct ws; [congruence|simpl; lia].
  - destruct rest as [|c rest]; [right; left; reflexivity|].
    right. right. exists c, rest. auto.
Qed.

Lemma span_blanks s :
  exists ws rest, s = ws ++ rest /\ forallb is_space ws = true /\
                  first_is_space rest = false.
Proof.
  induction s as [|c s (ws & rest & -> & Hw & Hr)].
  - exists [], []. auto.
  - destruct (is_space c) eqn:E.
    + exists (c :: ws), rest. simpl. rewrite E. auto.
    + exists [], (c :: ws ++ rest). simpl. auto.
Qed.

(** Replacing every run of blanks by one space. *)
Lemma collapse_blanks n :
  forall s prev,
    List.length s <= n ->
    single_spaced (sub_from BLANKS (const $" ") prev s 0) = true /\
    first_is_space (sub_from BLANKS (const $" ") prev s 0) = first_is_space s.
Proof.
  induction n as [|n IH]; intros s prev Hn.
  - destruct s; [|simpl in Hn; lia]. cbn. auto.
  - destruct s as [|c s]; [cbn; auto|].
    destruct (is_space c) eqn:E.
    + destruct (span_blanks s) as (ws & rest & -> & Hw & Hr).
      change (c :: ws ++ rest) with ((c :: ws) ++ rest).
      rewrite (sub_from_match BLANKS (const $" ") prev (c :: ws) rest no_caps);
        [|discriminate|apply blanks_match; [discriminate|simpl; rewrite E; exact Hw|exact Hr]].
      destruct (IH rest (after (c :: ws) prev)) as [H1 H2].
      { simpl in Hn. rewrite length_app in Hn. lia. }
      change (const $" " no_caps) with [" "%char].
      cbn [app single_spaced first_is_space].
      rewrite H1, H2, Hr, E. split; reflexivity.
    + rewrite sub_from_copy by (apply blanks_no_match, E).
      destruct (IH s (Some c)) as [H1 H2]; [simpl in Hn; lia|].
      cbn [single_spaced first_is_space]. rewrite E, H1. auto.
Qed.

Lemma single_spaced_app a b :
  single_spaced (a ++ b) = true -> single_spaced a = true /\ single_spaced b = true.
Proof.
  induction a as [|c a IH]; intro H; [simpl; auto|].
  simpl in H. apply andb_true_iff in H. destruct H as [Hc H].
  destruct (IH H) as [Ha Hb]. split; [|exact Hb].
  simpl. rewrite Ha, andb_true_r.
  destruct a as [|d a]; [|exact Hc].
  apply orb_true_iff in Hc. destruct Hc as [Hc|Hc]; [rewrite Hc; reflexivity|].
  apply andb_true_iff in Hc. destruct Hc as [Hc _]. rewrite Hc. simpl. apply orb_true_r.
Qed.

Lemma lstrip_first s : first_is_space (lstrip s) = false.
Proof.
  induction s as [|c s IH]; [reflexivity|].
  simpl. destruct (is_space c) eqn:E; [exact IH|simpl; exact E].
Qed.

(** A stripped text neither begins nor ends with a blank, and stripping
    keeps a text single-spaced. *)
Lemma strip_normal t :
  first_is_space (strip t) = false /\ last_is_space (strip t) = false /\
  (single_spaced t = true -> single_spaced (strip t) = true).
Proof.
  unfold strip. split; [|split].
  - destruct (rstrip_is_prefix (lstrip t)) as [r E].
    pose proof (lstrip_first t) as H. rewrite E in H.
    destruct (rstrip (lstrip t)); [reflexivity|exact H].
  - unfold last_is_space, rstrip. rewrite rev_involutive. apply lstrip_first.
  - intro H. destruct (lstrip_is_suffix t) as [l E]. rewrite E in H.
    apply single_spaced_app in H. destruct H as [_ H].
    destruct (rstrip_is_prefix (lstrip t)) as [r E']. rewrite E' in H.
    apply single_spaced_app in H. tauto.
Qed.

Lemma title_match_inside prev text cs rest :
  match_at TITLE prev text = Some (cs, rest) ->
  text = $"<title>" ++ group cs 1 ++ $"</title>" ++ rest /\
  group cs 1 <> [] /\ ~ In "<"%char (group cs 1).
Proof.
  unfold match_at, TITLE, Plus. cbn [m]. rewrite m_Str.
  destruct (startswith $"<title>" text) eqn:E; [|discriminate].
  apply startswith_split in E. revert E.
  generalize (skipn (List.length $"<title>") text). intros s1 E H.
  apply rep_sound in H. destruct H as (g & b & -> & Hg & Hlo & _ & H).
  rewrite firstn_consumed in H. rewrite m_Str in H.
  destruct (startswith $"</title>" b) eqn:E2; [|discriminate].
  apply startswith_split in E2. injection H as <- <-.
  unfold group, set_cap. simpl.
  split; [rewrite E, E2 at 1; reflexivity|]. split.
  - intros ->. simpl in Hlo. lia.
  - intro Hin. rewrite forallb_forall in Hg. apply Hg in Hin. discriminate.
Qed.

Lemma title_match_complete prev t r :
  t <> [] -> ~ In "<"%char t ->
  match_at TITLE prev ($"<title>" ++ t ++ $"</title>" ++ r) <> None.
Proof.
  intros Ht Hn.
  assert (Hall : forallb (none_of $"<") t = true).
  { apply forallb_forall. intros c Hc. unfold none_of, one_of. cbn [existsb list_ascii_of_string].
    destruct (Ascii.eqb_spec c "<") as [->|_]; [contradiction|reflexivity]. }
  assert (Hlen : 1 <= List.length t) by (destruct t; [congruence|simpl; lia]).
  unfold match_at, TITLE, Plus. cbn [m]. rewrite m_Str, startswith_app, skipn_length_app.
  erewrite rep_greedy;
    [discriminate|exact Hall|exact Hlen|exact I| |right; right; eexists _, _; split; reflexivity].
  rewrite m_Str, startswith_app. reflexivity.
Qed.

(** Two ways to cut one text: the shorter first part begins the longer. *)
Lemma app_eq_shorter (a b x y : str) :
  a ++ x = b ++ y -> List.length a < List.length b ->
  exists a2, b = a ++ a2 /\ a2 <> [] /\ x = a2 ++ y.
Proof.
  revert b. induction a as [|c a IH]; intros b E Hl.
  - exists b. destruct b; [simpl in Hl; lia|]. repeat split; [discriminate|exact E].
  - destruct b as [|d b]; [simpl in Hl; lia|].
    simpl in E. injection E as -> E. simpl in Hl.
    destruct (IH b E ltac:(lia)) as (a2 & -> & Hne & Hx).
    exists a2. repeat split; assumption.
Qed.

(** The match that [re.search] finds for the title is the first one. *)
Lemma title_search_first page cs rest :
  search TITLE page = Some (cs, rest) ->
  exists before,
    page = before ++ $"<title>" ++ group cs 1 ++ $"</title>" ++ rest /\
    group cs 1 <> [] /\ ~ In "<"%char (group cs 1) /\
    forall a t r,
      page = a ++ $"<title>" ++ t ++ $"</title>" ++ r -> t <> [] -> ~ In "<"%char t ->
      List.length before <= List.length a.
Proof.
  intro Hs. apply search_from_leftmost in Hs.
  destruct Hs as (before & b & -> & Hm & Hleft).
  apply title_match_inside in Hm. destruct Hm as (Hb & Hne & Hlt).
  exists before. split; [rewrite Hb at 1; reflexivity|].
  split; [exact Hne|]. split; [exact Hlt|].
  intros a t r E Ht Hn.
  destruct (Nat.le_gt_cases (List.length before) (List.length a)) as [Hle|Hgt]; [exact Hle|].
  exfalso. symmetry in E.
  destruct (app_eq_shorter _ _ _ _ E Hgt) as (a2 & -> & Ha2 & Hx).
  specialize (Hleft a a2 eq_refl Ha2). rewrite <- Hx in Hleft.
  exact (title_match_complete _ t r Ht Hn Hleft).
Qed.

(** X3. When [download_source] succeeds, the id it returns is a valid id
    found in the given URL; what it did is, in this order: a request for
    the abstract page of that id, a request for its e-print archive, the
    body written to the title followed by [.tar.gz], and the extraction of
    that file.  The title comes from the first [<title>] element of the
    page whose content is not empty and holds no [<]: the [[id]] prefix is
    removed, runs of blanks become one space, and the ends are stripped, so
    the title has single spaces for blanks and no blank at either end. *)
Theorem download_source_ok (env : Env) (arxiv_url id title : str) (files : Extracted) :
  snd (download_source env arxiv_url) = Ok (id, title, files) ->
  valid_id id /\ (exists a b, arxiv_url = a ++ id ++ b) /\
  (exists page before pgtitle rest body,
     http_get env ($"https://arxiv.org/abs/" ++ id) = Some page /\
     page = before ++ $"<title>" ++ pgtitle ++ $"</title>" ++ rest /\
     pgtitle <> [] /\ ~ In "<"%char pgtitle /\
     (forall a t r,
        page = a ++ $"<title>" ++ t ++ $"</title>" ++ r -> t <> [] -> ~ In "<"%char t ->
        List.length before <= List.length a) /\
     title = strip (sub BLANKS (const $" ") (sub TITLE_PREFIX (const []) pgtitle)) /\
     http_stream env ($"https://arxiv.org/e-print/" ++ id) = Some (body, true) /\
     open_wb env (title ++ $".tar.gz") = None /\
     untar env body = Files files /\
     fst (download_source env arxiv_url) =
       [ HttpGet ($"https://arxiv.org/abs/" ++ id);
         HttpGet ($"https://arxiv.org/e-print/" ++ id);
         WriteFile (title ++ $".tar.gz") body;
         Untar (title ++ $".tar.gz") ]) /\
  single_spaced title = true /\ first_is_space title = false /\
  last_is_space title = false.
Proof.
  unfold download_source, get_stream, save, extract, lift, get, bind, emit, ret, raise.
  destruct (parse_arxiv_id arxiv_url) as [id0|e] eqn:Hp; [|discriminate].
  destruct (http_get env ($"https://arxiv.org/abs/" ++ id0)) as [page|] eqn:Hg1;
    [|discriminate].
  cbn [fst snd app].
  destruct (search TITLE page) as [[cs rest]|] eqn:Hs; [|discriminate].
  destruct (http_stream env ($"https://arxiv.org/e-print/" ++ id0)) as [[body complete]|]
    eqn:Hg2; [|discriminate].
  cbn [fst snd app].
  destruct (open_wb env _) as [c|] eqn:Ho; [discriminate|].
  cbn [fst snd app].
  destruct complete; [|discriminate].
  cbn [fst snd app].
  destruct (untar env body) as [files0| |c] eqn:Hu; try discriminate.
  cbn [fst snd app]. intro H. injection H as <- <- <-.
  destruct (parse_arxiv_id_ok _ _ Hp) as [Hid Hin].
  split; [exact Hid|]. split; [exact Hin|]. split.
  - destruct (title_search_first _ _ _ Hs) as (before & Hpage & Hne & Hlt & Hfirst).
    exists page, before, (group cs 1), rest, body.
    repeat split; auto.
  - pose proof (strip_normal (sub BLANKS (const $" ")
                               (sub TITLE_PREFIX (const []) (group cs 1)))) as (H1 & H2 & H3).
    split; [|split; assumption]. apply H3.
    apply (collapse_blanks _ _ None (Nat.le_refl _)).
Qed.


Lemma download_source_ok_example :
  exists files,
    snd (download_source sample_env $"https://arxiv.org/abs/2301.00001") =
      Ok ($"2301.00001", $"A Title", files) /\
    valid_id $"2301.00001".
Proof.
  eexists. split; [reflexivity|].
  eapply (download_source_ok sample_env $"https://arxiv.org/abs/2301.00001"
            $"2301.00001" $"A Title").
  reflexivity.
Defined.

(** ** The whole run *)

Lemma check_prerequisite_raise env is_landscape e :
  snd (check_prerequisite env is_landscape) = Raise e ->
  caught e = true /\
  forallb (fun ev => negb (touches_network_or_files ev))
          (fst (check_prerequisite env is_landscape)) = true.
Proof.
  unfold check_prerequisite, version_check, bind, emit, ret, raise.
  destruct (run_version env $"pdflatex") as [rc|];
    [destruct (Z.eqb rc 0)|];
    (destruct is_landscape;
     [destruct (run_version env $"pdftk") as [rc2|];
      [destruct (Z.eqb rc2 0)|]|]);
    cbn; intro H; try discriminate; injection H as <-; auto.
Qed.

(** X5. With a margin that passes and an output path that is accepted, a
    failed prerequisite check ends [main] with exit code 1 after the
    version probes alone: no request is sent and nothing is written. *)
Theorem main_stops_at_prerequisites (env : Env) (args : Args) (e : exn) :
  float_ltb (Finite 0%Q) (margin args) && float_ltb (margin args) (Finite 1%Q) = true ->
  (path_suffix env (output args) <> [] \/
   exists p, path_with_suffix env (output args) $".pdf" = Ok p) ->
  snd (check_prerequisite env (landscape args)) = Raise e ->
  main env args =
    (LogConfig (verbose args) :: fst (check_prerequisite env (landscape args)), Exit 1) /\
  forallb (fun ev => negb (touches_network_or_files ev)) (fst (main env args)) = true.
Proof.
  intros Hm Hp He.
  destruct (check_prerequisite_raise env (landscape args) e He) as [Hc Ht].
  assert (E : main env args =
              (LogConfig (verbose args) :: fst (check_prerequisite env (landscape args)),
               Exit 1)).
  { unfold main. rewrite Hm. cbn [negb].
    destruct (check_prerequisite env (landscape args)) as [t r] eqn:Ec.
    simpl in He. subst r. cbn [bind fst].
    destruct (path_suffix env (output args)) as [|c sfx].
    - destruct Hp as [Hp|[p Hp]]; [congruence|]. rewrite Hp. rewrite Hc. reflexivity.
    - rewrite Hc. reflexivity. }
  split; [exact E|]. rewrite E. cbn [fst forallb]. exact Ht.
Qed.

Lemma main_stops_at_prerequisites_example :
  main no_pdflatex_env (sample_args (Finite (1 # 5)%Q)) =
    ([LogConfig false; Run [$"pdflatex"; $"--version"]], Exit 1).
Proof.
  apply (main_stops_at_prerequisites no_pdflatex_env (sample_args (Finite (1 # 5)%Q))
           (FileNotFoundError_NoExecutable $"pdflatex")).
  - reflexivity.
  - right. eexists. reflexivity.
  - reflexivity.
Defined.

Lemma download_source_events env arxiv_url :
  forall ev, In ev (fst (download_source env arxiv_url)) ->
             is_temp ev = false /\ is_copy ev = false.
Proof.
  unfold download_source, get_stream, save, extract, lift, get, bind, emit, ret, raise.
  destruct (parse_arxiv_id arxiv_url) as [id0|e0]; [|intros ev []].
  destruct (http_get env ($"https://arxiv.org/abs/" ++ id0)) as [page|];
    [|cbn; intros ev [<-|[]]; auto].
  cbn [fst snd app].
  destruct (search TITLE page) as [[cs rest]|]; [|cbn; intros ev [<-|[]]; auto].
  destruct (http_stream env ($"https://arxiv.org/e-print/" ++ id0)) as [[body complete]|];
    [|cbn; intros ev [<-|[<-|[]]]; auto].
  cbn [fst snd app].
  destruct (open_wb env _); [cbn; intros ev [<-|[<-|[]]]; auto|].
  cbn [fst snd app].
  destruct complete; [|cbn; intros ev [<-|[<-|[<-|[]]]]; auto].
  cbn [fst snd app].
  destruct (untar env body); cbn; intros ev [<-|[<-|[<-|[<-|[]]]]]; auto.
Qed.

Lemma style_writes_events files ev :
  In ev (style_writes files) -> is_temp ev = false /\ is_copy ev = false.
Proof.
  unfold style_writes. rewrite in_map_iff. intros (f & <- & _). auto.
Qed.

Lemma process_tex_events env is_landscape settings work_dir :
  (forall ev, In ev (fst (process_tex env is_landscape settings work_dir)) ->
     is_temp ev = false /\
     (is_copy ev = true -> exists b, ev = CopyFile (b ++ $".tex") (b ++ $".tex.bak"))) /\
  (forall pdf, snd (process_tex env is_landscape settings work_dir) = Ok pdf ->
     exists b, pdf = b ++ $".pdf").
Proof.
  unfold process_tex. rewrite write_styles_trace.
  assert (Hs : forall ev, In ev (style_writes (sty_files work_dir)) ->
               is_temp ev = false /\
               (is_copy ev = true ->
                exists b, ev = CopyFile (b ++ $".tex") (b ++ $".tex.bak"))).
  { intros ev H. apply style_writes_events in H. destruct H as [H1 H2].
    split; [exact H1|]. rewrite H2. discriminate. }
  destruct (find_main (tex_files work_dir)) as [[base text]|].
  2:{ cbn. rewrite app_nil_r. split; [exact Hs|discriminate]. }
  destruct (rewrite_tex is_landscape settings text) as [new|e].
  2:{ cbn. rewrite app_nil_r. split; [exact Hs|discriminate]. }
  unfold compile_latex.
  destruct (bib_present work_dir); destruct (pdf_exists env base); cbn; split;
    try discriminate;
    try (intros pdf H; injection H as <-; eauto);
    intros ev H; apply in_app_or in H; destruct H as [H|H]; try (apply Hs, H);
    repeat (destruct H as [<-|H]; [split; [reflexivity|]; intro; try discriminate; eauto|]);
    destruct H.
Qed.

Lemma pdf_is_not_tex (a b : str) : a ++ $".pdf" <> b ++ $".tex".
Proof.
  intro H. apply (f_equal (@rev ascii)) in H. rewrite !rev_app_distr in H.
  simpl in H. discriminate.
Qed.

Lemma convert_shape (env : Env) (arxiv_url : str) (is_landscape : bool)
    (output : str) (width height : Z) (margin : float) :
  exists t,
    fst (convert env arxiv_url is_landscape output width height margin)
      = MkTemp :: t ++ [RmTemp] /\
    forallb (fun ev => negb (is_temp ev)) t = true /\
    (snd (convert env arxiv_url is_landscape output width height margin) = Ok tt ->
     exists t' base, t = t' ++ [CopyFile (base ++ $".pdf") output]) /\
    (forall e,
       snd (convert env arxiv_url is_landscape output width height margin) = Raise e ->
       forall base, ~ In (CopyFile (base ++ $".pdf") output) t).
Proof.
  unfold convert.
  set (wh := if is_landscape then (height, width) else (width, height)).
  destruct wh as [w h]. unfold with_temp.
  pose proof (download_source_events env arxiv_url) as Hd.
  destruct (download_source env arxiv_url) as [t1 [[[id title] files]|e1]]; cbn [fst snd] in Hd.
  - cbn [bind snd].
    pose proof (process_tex_events env is_landscape (geometric_settings env w h margin) files)
      as [Hp Hpdf].
    destruct (process_tex env is_landscape (geometric_settings env w h margin) files)
      as [t2 [pdf|e2]]; cbn [fst snd] in Hp, Hpdf.
    + cbn. exists (t1 ++ t2 ++ [CopyFile pdf output]). split; [reflexivity|]. split.
      * rewrite !forallb_app. cbn. rewrite !andb_true_r. apply andb_true_iff. split.
        -- apply forallb_forall. intros ev H. apply Hd in H. destruct H as [-> _]. reflexivity.
        -- apply forallb_forall. intros ev H. apply Hp in H. destruct H as [-> _]. reflexivity.
      * split; [|discriminate]. intros _.
        destruct (Hpdf pdf eq_refl) as [b ->].
        exists (t1 ++ t2), b. rewrite <- app_assoc. reflexivity.
    + cbn. exists (t1 ++ t2). split; [reflexivity|]. split.
      * rewrite forallb_app. apply andb_true_iff. split.
        -- apply forallb_forall. intros ev H. apply Hd in H. destruct H as [-> _]. reflexivity.
        -- apply forallb_forall. intros ev H. apply Hp in H. destruct H as [-> _]. reflexivity.
      * split; [discriminate|]. intros e _ base H.
        apply in_app_or in H. destruct H as [H|H].
        -- apply Hd in H. destruct H as [_ H]. discriminate.
        -- apply Hp in H. destruct H as [_ H]. destruct (H eq_refl) as [b Hb].
           injection Hb as Hb _. exact (pdf_is_not_tex _ _ Hb).
  - cbn. exists t1. split; [reflexivity|]. split.
    + apply forallb_forall. intros ev H. apply Hd in H. destruct H as [-> _]. reflexivity.
    + split; [discriminate|]. intros e _ base H.
      apply Hd in H. destruct H as [_ H]. discriminate.
Qed.

(** X6. Whatever happens inside, [convert] creates the temporary directory
    first and removes it last, and does neither in between.  The PDF is
    copied to the output path exactly on success: then the copy is the last
    thing done before the directory is removed, and on failure no PDF is
    copied to the output path at all. *)
Theorem convert_cleans_up (env : Env) (arxiv_url : str) (is_landscape : bool)
    (output : str) (width height : Z) (margin : float) :
  exists t,
    fst (convert env arxiv_url is_landscape output width height margin)
      = MkTemp :: t ++ [RmTemp] /\
    forallb (fun ev => negb (is_temp ev)) t = true /\
    (snd (convert env arxiv_url is_landscape output width height margin) = Ok tt ->
     exists t' base, t = t' ++ [CopyFile (base ++ $".pdf") output]) /\
    (forall e,
       snd (convert env arxiv_url is_landscape output width height margin) = Raise e ->
       forall base, ~ In (CopyFile (base ++ $".pdf") output) t).
Proof. apply convert_shape. Qed.

(** The exit codes of [main] once the command line is parsed. *)
Lemma main_parsed_exit_codes (env : Env) (args : Args) :
  (snd (main env args) = Exit 0 ->
   float_ltb (Finite 0%Q) (margin args) = true /\
   float_ltb (margin args) (Finite 1%Q) = true /\
   snd (check_prerequisite env (landscape args)) = Ok tt /\
   exists t base out,
     fst (main env args) = t ++ [CopyFile (base ++ $".pdf") out; RmTemp] /\
     ((path_suffix env (output args) <> [] /\ out = output args) \/
      (path_suffix env (output args) = [] /\
       path_with_suffix env (output args) $".pdf" = Ok out))) /\
  (snd (main env args) = Exit 2 <->
   float_ltb (Finite 0%Q) (margin args) && float_ltb (margin args) (Finite 1%Q) = false).
Proof.
  unfold main.
  destruct (float_ltb (Finite 0%Q) (margin args) && float_ltb (margin args) (Finite 1%Q))
    eqn:Hm; cbn [negb].
  2:{ split; [discriminate|]. split; reflexivity. }
  apply andb_true_iff in Hm. destruct Hm as [Hm1 Hm2].
  assert (Hrun : forall out,
            let r := check_prerequisite env (landscape args) ;;;
                     convert env (url args) (landscape args) out
                             (width args) (height args) (margin args) in
            snd r = Ok tt ->
            snd (check_prerequisite env (landscape args)) = Ok tt /\
            exists t base, LogConfig (verbose args) :: fst r
                           = t ++ [CopyFile (base ++ $".pdf") out; RmTemp]).
  { intros out. cbv zeta.
    destruct (check_prerequisite env (landscape args)) as [t0 [[]|e0]]; [|discriminate].
    cbn [bind snd fst].
    destruct (convert_shape env (url args) (landscape args) out
                (width args) (height args) (margin args)) as (t & Ht & _ & Hok & _).
    destruct (convert env (url args) (landscape args) out
                (width args) (height args) (margin args)) as [tc rc].
    cbn [fst snd] in *. intro H. split; [reflexivity|].
    destruct (Hok H) as (t' & base & ->). subst tc.
    exists (LogConfig (verbose args) :: t0 ++ MkTemp :: t'), base.
    cbn. f_equal. rewrite <- ?app_assoc. cbn. rewrite <- ?app_assoc. reflexivity. }
  assert (Hst : forall (r : result unit),
            match r with Ok _ => Exit 0 | Raise e => if caught e then Exit 1 else Traceback e end
            = Exit 0 -> r = Ok tt).
  { intros [[]|e]; [reflexivity|]. destruct (caught e); discriminate. }
  assert (Hne : forall (r : result unit),
            match r with Ok _ => Exit 0 | Raise e => if caught e then Exit 1 else Traceback e end
            <> Exit 2).
  { intros [[]|e]; [discriminate|]. destruct (caught e); discriminate. }
  destruct (path_suffix env (output args)) as [|c sfx] eqn:Hs.
  - destruct (path_with_suffix env (output args) $".pdf") as [out|e] eqn:Hw.
    + specialize (Hrun out). cbv zeta in Hrun.
      destruct (check_prerequisite env (landscape args) ;;;
                convert env (url args) (landscape args) out
                        (width args) (height args) (margin args)) as [t r].
      cbn [fst snd] in *. split.
      * intro H. apply Hst in H. destruct (Hrun H) as (Hc & t' & base & E).
        repeat split; auto. exists t', base, out. split; [exact E|]. right. auto.
      * split; [intro H; exfalso; exact (Hne _ H)|discriminate].
    + cbn. split; [discriminate|]. split; discriminate.
  - specialize (Hrun (output args)). cbv zeta in Hrun.
    destruct (check_prerequisite env (landscape args) ;;;
              convert env (url args) (landscape args) (output args)
                      (width args) (height args) (margin args)) as [t r].
    cbn [fst snd] in *. split.
    + intro H. apply Hst in H. destruct (Hrun H) as (Hc & t' & base & E).
      repeat split; auto. exists t', base, (output args). split; [exact E|].
      left. split; [discriminate|reflexivity].
    + split; [intro H; exfalso; exact (Hne _ H)|discriminate].
Qed.

(** X7. Exit code 0 means that the help text was asked for and nothing was
    done, or that the whole run went through: the command line was parsed,
    the margin lay strictly between 0 and 1, the prerequisite check passed,
    and the last two things [main] did were to copy the PDF to the output
    path (the given one when it has a suffix, else the one with [.pdf]
    appended by [with_suffix]) and to remove the temporary directory.
    Exit code 2 means a command line that [argparse] refuses or a margin
    outside that range, and nothing else gives it. *)
Theorem main_exit_codes (env : Env) (argv : list str) :
  (snd (main_argv env argv) = Exit 0 ->
   (parse_args env argv = Help /\ fst (main_argv env argv) = []) \/
   exists args,
     parse_args env argv = Parsed args /\
     float_ltb (Finite 0%Q) (margin args) = true /\
     float_ltb (margin args) (Finite 1%Q) = true /\
     snd (check_prerequisite env (landscape args)) = Ok tt /\
     exists t base out,
       fst (main_argv env argv) = t ++ [CopyFile (base ++ $".pdf") out; RmTemp] /\
       ((path_suffix env (output args) <> [] /\ out = output args) \/
        (path_suffix env (output args) = [] /\
         path_with_suffix env (output args) $".pdf" = Ok out))) /\
  (snd (main_argv env argv) = Exit 2 <->
   parse_args env argv = UsageError \/
   exists args,
     parse_args env argv = Parsed args /\
     float_ltb (Finite 0%Q) (margin args) && float_ltb (margin args) (Finite 1%Q) = false).
Proof.
  unfold main_argv.
  destruct (parse_args env argv) as [args| |] eqn:Hp.
  - destruct (main_parsed_exit_codes env args) as [H0 H2]. split.
    + intro H. right. exists args. split; [reflexivity|]. exact (H0 H).
    + split.
      * intro H. right. exists args. split; [reflexivity|]. apply H2, H.
      * intros [H|(args' & E & H)]; [discriminate|].
        injection E as <-. apply H2, H.
  - split.
    + intros _. left. split; reflexivity.
    + split; [discriminate|]. intros [H|(args' & E & _)]; discriminate.
  - split.
    + discriminate.
    + split; [intros _; left; reflexivity|reflexivity].
Qed.


(** ** [process_tex] as a whole *)

(** X8. When [process_tex] succeeds it has, in this order: rewritten every
    style file, copied the main file to [.tex.bak], written the rewritten
    main file, run [pdflatex] once, run [bibtex] if a bibliography is
    there, and run [pdflatex] twice more; the PDF it returns is named after
    the main file and was found to exist. *)
Theorem process_tex_ok (env : Env) (is_landscape : bool) (settings : list (str * str))
    (work_dir : Extracted) (pdf : str) :
  snd (process_tex env is_landscape settings work_dir) = Ok pdf ->
  exists texbase text new_text,
    find_main (tex_files work_dir) = Some (texbase, text) /\
    rewrite_tex is_landscape settings text = Ok new_text /\
    pdf_exists env texbase = true /\
    pdf = texbase ++ $".pdf" /\
    fst (process_tex env is_landscape settings work_dir) =
      style_writes (sty_files work_dir) ++
      [ CopyFile (texbase ++ $".tex") (texbase ++ $".tex.bak");
        WriteFile (texbase ++ $".tex") new_text;
        Run [$"pdflatex"; $"-interaction=nonstopmode"; texbase ++ $".tex"] ] ++
      (if bib_present work_dir then [Run [$"bibtex"; texbase]] else []) ++
      [ Run [$"pdflatex"; $"-interaction=nonstopmode"; texbase ++ $".tex"];
        Run [$"pdflatex"; $"-interaction=nonstopmode"; texbase ++ $".tex"] ].
Proof.
  unfold process_tex. rewrite write_styles_trace.
  destruct (find_main (tex_files work_dir)) as [[base text]|] eqn:Hf; [|discriminate].
  destruct (rewrite_tex is_landscape settings text) as [new|e] eqn:Hr; [|discriminate].
  unfold compile_latex.
  destruct (bib_present work_dir); destruct (pdf_exists env base) eqn:Hp; cbn;
    try discriminate; intro H; injection H as <-;
    exists base, text, new; repeat split; auto.
Qed.

Lemma process_tex_ok_example :
  snd (process_tex sample_env false [] (one_main minimal_doc)) = Ok $"main.pdf" /\
  exists texbase text new_text,
    find_main (tex_files (one_main minimal_doc)) = Some (texbase, text) /\
    rewrite_tex false [] text = Ok new_text /\
    pdf_exists sample_env texbase = true /\
    $"main.pdf" = texbase ++ $".pdf" /\
    fst (process_tex sample_env false [] (one_main minimal_doc)) =
      style_writes (sty_files (one_main minimal_doc)) ++
      [ CopyFile (texbase ++ $".tex") (texbase ++ $".tex.bak");
        WriteFile (texbase ++ $".tex") new_text;
        Run [$"pdflatex"; $"-interaction=nonstopmode"; texbase ++ $".tex"] ] ++
      (if bib_present (one_main minimal_doc) then [Run [$"bibtex"; texbase]] else []) ++
      [ Run [$"pdflatex"; $"-interaction=nonstopmode"; texbase ++ $".tex"];
        Run [$"pdflatex"; $"-interaction=nonstopmode"; texbase ++ $".tex"] ].
Proof.
  split; [vm_compute; reflexivity|].
  apply (process_tex_ok sample_env false [] (one_main minimal_doc) $"main.pdf").
  vm_compute. reflexivity.
Defined.

(** X9. [process_tex] writes nothing but the style files, each with its
    rewritten text, and the main file; the main file is written only with
    the text [rewrite_tex] gives for the file [find_main] chose, and only
    right after it was copied to [.tex.bak]. *)
Theorem process_tex_writes (env : Env) (is_landscape : bool) (settings : list (str * str))
    (work_dir : Extracted) (name content : str) :
  In (WriteFile name content) (fst (process_tex env is_landscape settings work_dir)) ->
  (exists f, In f (sty_files work_dir) /\ name = fst f /\ content = rewrite_sty (snd f)) \/
  (exists texbase text t1 t2,
     find_main (tex_files work_dir) = Some (texbase, text) /\
     name = texbase ++ $".tex" /\
     rewrite_tex is_landscape settings text = Ok content /\
     fst (process_tex env is_landscape settings work_dir) =
       t1 ++ CopyFile (texbase ++ $".tex") (texbase ++ $".tex.bak")
          :: WriteFile name content :: t2).
Proof.
  unfold process_tex. rewrite write_styles_trace.
  assert (Hs : In (WriteFile name content) (style_writes (sty_files work_dir)) ->
               exists f, In f (sty_files work_dir) /\ name = fst f /\
                         content = rewrite_sty (snd f)).
  { unfold style_writes. rewrite in_map_iff. intros (f & E & Hf).
    injection E as <- <-. eauto. }
  destruct (find_main (tex_files work_dir)) as [[base text]|] eqn:Hf.
  2:{ cbn. rewrite app_nil_r. intro H. left. apply Hs, H. }
  destruct (rewrite_tex is_landscape settings text) as [new|e] eqn:Hr.
  2:{ cbn. rewrite app_nil_r. intro H. left. apply Hs, H. }
  unfold compile_latex.
  destruct (bib_present work_dir); destruct (pdf_exists env base); cbn;
    intro H; apply in_app_or in H; (destruct H as [H|H]; [left; apply Hs, H|]);
    right; exists base, text, (style_writes (sty_files work_dir));
    repeat (destruct H as [H|H]; try discriminate); try contradiction;
    injection H as <- <-; eexists; repeat split; auto.
Qed.

Lemma process_tex_writes_example :
  In (WriteFile $"paper.sty" $"\onecolumn [\@maketitle")
     (fst (process_tex sample_env false []
             {| sty_files := [($"paper.sty", $"\twocolumn [\@maketitle]")];
                tex_files := []; bib_present := false |})) /\
  ((exists f, In f [($"paper.sty", $"\twocolumn [\@maketitle]")] /\
              $"paper.sty" = fst f /\ $"\onecolumn [\@maketitle" = rewrite_sty (snd f)) \/
   (exists texbase text t1 t2,
      find_main [] = Some (texbase, text) /\
      $"paper.sty" = texbase ++ $".tex" /\
      rewrite_tex false [] text = Ok $"\onecolumn [\@maketitle" /\
      fst (process_tex sample_env false []
             {| sty_files := [($"paper.sty", $"\twocolumn [\@maketitle]")];
                tex_files := []; bib_present := false |}) =
        t1 ++ CopyFile (texbase ++ $".tex") (texbase ++ $".tex.bak")
           :: WriteFile $"paper.sty" $"\onecolumn [\@maketitle" :: t2)).
Proof.
  assert (H : In (WriteFile $"paper.sty" $"\onecolumn [\@maketitle")
     (fst (process_tex sample_env false []
             {| sty_files := [($"paper.sty", $"\twocolumn [\@maketitle]")];
                tex_files := []; bib_present := false |}))).
  { vm_compute. left. reflexivity. }
  split; [exact H|].
  exact (process_tex_writes sample_env false [] _ _ _ H).
Defined.

(** ** What the substitutions leave alone *)

(** X10. Text that does not mention what a substitution looks for comes
    out unchanged: a line without [\includegraphics[width=] from the image
    scaling, a line without [\newgeometry] and [\twocolumn] from the loop
    over the lines, and a style file without any of the seven opening
    texts of the style patterns ([\PackageError] in any letter case) from
    the style-file pass. *)
Theorem rewriting_leaves_other_text_alone :
  (forall l, contains $"\includegraphics[width=" l = false -> scale_line l = l) /\
  (forall l, contains $"\newgeometry" l = false -> contains $"\twocolumn" l = false ->
             rewrite_line l = l) /\
  (forall sty_content,
     contains $"\usepackage" sty_content = false ->
     contains $"\newgeometry" sty_content = false ->
     contains $"\geometry" sty_content = false ->
     contains $"\RequirePackage" sty_content = false ->
     contains $"\twocolumn" sty_content = false ->
     contains $"\@ifpackageloaded{geometry}" sty_content = false ->
     contains (map lower $"\PackageError") (map lower sty_content) = false ->
     rewrite_sty sty_content = sty_content).
Proof.
  split; [|split].
  - intros l H. unfold scale_line, sub.
    apply (sub_unchanged _ _ _ _ includegraphics_begins H).
  - intros l H1 H2. unfold rewrite_line, sub.
    rewrite (sub_unchanged _ _ _ _ newgeometry_begins_literal H1).
    apply (sub_unchanged _ _ _ _ twocolumn_begins_literal H2).
  - intros c H1 H2 H3 H4 H5 H6 H7. unfold rewrite_sty, sub. cbv zeta.
    rewrite (sub_unchanged _ _ _ _ usepackage_begins H1).
    rewrite (sub_unchanged _ _ _ _ newgeometry_begins_literal H2).
    rewrite (sub_unchanged _ _ _ _ geometry_begins H3).
    rewrite (sub_unchanged _ _ _ _ requirepackage_begins H4).
    rewrite (sub_unchanged _ _ _ _ twocolumn_begins_literal H5).
    rewrite (sub_unchanged _ _ _ _ ifpackageloaded_begins H6).
    apply (sub_unchanged_nocase _ _ _ _ packageerror_begins H7).
Qed.

Lemma rewriting_leaves_other_text_alone_example :
  scale_line $"\includegraphics[scale=0.5]{fig.png}" = $"\includegraphics[scale=0.5]{fig.png}" /\
  rewrite_line $"\section{Two columns}" = $"\section{Two columns}" /\
  rewrite_sty $"\ProvidesPackage{paper}\newcommand{\x}{y}" =
    $"\ProvidesPackage{paper}\newcommand{\x}{y}".
Proof.
  destruct rewriting_leaves_other_text_alone as (H1 & H2 & H3).
  split; [apply H1; reflexivity|]. split; [apply H2; reflexivity|].
  apply H3; reflexivity.
Defined.

(** ** The commas of the option list *)

Lemma trailing_comma_match prev c s :
  match_at TRAILING_COMMA prev (c :: s) =
  if Ascii.eqb "," c && match s with d :: _ => one_of $"]," d | [] => false end
  then Some (no_caps, s) else None.
Proof.
  unfold match_at, TRAILING_COMMA. cbn [m Lit].
  destruct (Ascii.eqb "," c); [|reflexivity].
  destruct s as [|d s]; [reflexivity|]. cbn [andb].
  destruct (one_of $"]," d); reflexivity.
Qed.

Lemma trailing_comma_sub s :
  forall prev, sub_from TRAILING_COMMA (const []) prev s 0 = drop_commas s.
Proof.
  induction s as [|c s IH]; intro prev; [reflexivity|].
  pose proof (trailing_comma_match prev c s) as E. cbn [drop_commas].
  destruct (Ascii.eqb "," c && match s with d :: _ => one_of $"]," d | [] => false end).
  - change (c :: s) with ([c] ++ s).
    rewrite (sub_from_match TRAILING_COMMA (const []) prev [c] s no_caps);
      [|discriminate|exact E].
    apply IH.
  - rewrite sub_from_copy by exact E. f_equal. apply IH.
Qed.

Lemma drop_commas_clean s :
  contains $",]" (drop_commas s) = false /\ contains $",," (drop_commas s) = false.
Proof.
  induction s as [|c s [IH1 IH2]]; [split; reflexivity|].
  cbn [drop_commas].
  destruct (Ascii.eqb "," c && match s with d :: _ => one_of $"]," d | [] => false end) eqn:E;
    [split; assumption|].
  assert (H : forall x, In x $"]," ->
                        Ascii.eqb "," c && startswith [x] (drop_commas s) = false).
  { intros x Hx. destruct (Ascii.eqb "," c); [|reflexivity]. cbn [andb] in *.
    destruct s as [|d s]; [reflexivity|].
    assert (Hd : Ascii.eqb "," d = false).
    { unfold one_of in E. cbn in E. apply orb_false_iff in E. destruct E as [_ E].
      apply orb_false_iff in E. destruct E as [E _]. rewrite Ascii.eqb_sym. exact E. }
    cbn [drop_commas]. rewrite Hd. cbn [andb startswith]. rewrite andb_true_r.
    unfold one_of in E. cbn in E. cbn in Hx.
    destruct Hx as [<-|[<-|[]]]; rewrite Ascii.eqb_sym.
    - apply orb_false_iff in E. tauto.
    - apply orb_false_iff in E. destruct E as [_ E]. apply orb_false_iff in E. tauto. }
  split.
  - change (contains $",]" (c :: drop_commas s))
      with (startswith $",]" (c :: drop_commas s) || contains $",]" (drop_commas s)).
    rewrite IH1, orb_false_r.
    change (startswith $",]" (c :: drop_commas s))
      with (Ascii.eqb "," c && startswith ["]"%char] (drop_commas s)).
    apply H. simpl. auto.
  - change (contains $",," (c :: drop_commas s))
      with (startswith $",," (c :: drop_commas s) || contains $",," (drop_commas s)).
    rewrite IH2, orb_false_r.
    change (startswith $",," (c :: drop_commas s))
      with (Ascii.eqb "," c && startswith [","%char] (drop_commas s)).
    apply H. simpl. auto.
Qed.

(** X11. Whatever the first line is, after the stripping of the options
    no comma is left right before a closing bracket and no two commas
    are left side by side. *)
Theorem strip_options_commas (l : str) :
  contains $",]" (strip_options l) = false /\
  contains $",," (strip_options l) = false.
Proof.
  unfold strip_options, sub. cbv zeta.
  rewrite trailing_comma_sub. apply drop_commas_clean.
Qed.

(** ** The [onecolumn] option *)

Lemma search_from_none r p s :
  (forall prev t cs rest, match_at r prev t = Some (cs, rest) -> startswith p t = true) ->
  contains p s = false ->
  forall prev, search_from r prev s = None.
Proof.
  intros Hm. induction s as [|c s IH]; intros Hc prev.
  - cbn [search_from]. apply orelse_none. split; [|reflexivity].
    destruct (match_at r prev []) as [[cs rest]|] eqn:E; [|reflexivity].
    apply Hm in E. apply contains_false_startswith in Hc. congruence.
  - cbn [search_from]. apply orelse_none. split.
    + destruct (match_at r prev (c :: s)) as [[cs rest]|] eqn:E; [|reflexivity].
      apply Hm in E. apply contains_false_startswith in Hc. congruence.
    + apply IH. apply (contains_false_suffix p [c] s Hc).
Qed.

Lemma contains_after x p a b :
  ~ In x a -> contains (x :: p) (a ++ b) = contains (x :: p) b.
Proof.
  induction a as [|c a IH]; intro H; [reflexivity|].
  simpl app. cbn [contains startswith].
  destruct (Ascii.eqb_spec x c) as [->|_]; [exfalso; apply H; left; reflexivity|].
  cbn [andb orb]. apply IH. intro Hin. apply H. right. exact Hin.
Qed.

Lemma blanks_have_no_backslash ws : forallb is_space ws = true -> ~ In "\"%char ws.
Proof.
  intros H Hin. rewrite forallb_forall in H. apply H in Hin. discriminate.
Qed.

Lemma documentclass_opts_begins :
  forall prev t cs rest, match_at DOCUMENTCLASS_OPTS prev t = Some (cs, rest) ->
                         startswith $"\documentclass" t = true.
Proof. unfold DOCUMENTCLASS_OPTS. begins_with_literal m_Str. Qed.

Lemma documentclass_opts_g_begins :
  forall prev t cs rest, match_at DOCUMENTCLASS_OPTS_G prev t = Some (cs, rest) ->
                         startswith $"\documentclass" t = true.
Proof. unfold DOCUMENTCLASS_OPTS_G, DOCUMENTCLASS_OPTS. begins_with_literal m_Str. Qed.

Lemma documentclass_bare_begins :
  forall prev t cs rest, match_at DOCUMENTCLASS_BARE prev t = Some (cs, rest) ->
                         startswith $"\documentclass" t = true.
Proof. unfold DOCUMENTCLASS_BARE. begins_with_literal m_Str. Qed.

Lemma documentclass_opts_match prev ws rest :
  forallb is_space ws = true ->
  match_at DOCUMENTCLASS_OPTS prev ($"\documentclass" ++ ws ++ "["%char :: rest)
    = Some (no_caps, rest) /\
  match_at DOCUMENTCLASS_OPTS_G prev ($"\documentclass" ++ ws ++ "["%char :: rest)
    = Some (set_cap 1 ($"\documentclass" ++ ws ++ ["["%char]) no_caps, rest).
Proof.
  intro Hw. unfold match_at, DOCUMENTCLASS_OPTS_G, DOCUMENTCLASS_OPTS, Star.
  cbn [m]. rewrite !m_Str, startswith_app, skipn_length_app. split.
  - apply rep_greedy; [exact Hw|lia|exact I| |right; right; eexists _, _; split; reflexivity].
    cbn. reflexivity.
  - apply rep_greedy; [exact Hw|lia|exact I| |right; right; eexists _, _; split; reflexivity].
    cbn [m Lit]. rewrite Ascii.eqb_refl. f_equal. f_equal. f_equal.
    replace ($"\documentclass" ++ ws ++ "["%char :: rest)
      with (($"\documentclass" ++ ws ++ ["["%char]) ++ rest)
      by (rewrite <- !app_assoc; reflexivity).
    apply firstn_consumed.
Qed.

Lemma blanks_then_brace a b ws rest :
  forallb is_space a = true -> forallb is_space ws = true ->
  a ++ "["%char :: b = ws ++ "{"%char :: rest -> False.
Proof.
  revert a. induction ws as [|w ws IH]; intros a Ha Hw E.
  - destruct a as [|c a]; [discriminate|].
    simpl in E. injection E as -> _. discriminate.
  - destruct a as [|c a].
    + simpl in E. injection E as <- _. discriminate.
    + simpl in E. injection E as -> E. simpl in Ha, Hw.
      apply andb_true_iff in Ha. apply andb_true_iff in Hw.
      apply (IH a); tauto.
Qed.

Lemma documentclass_bare_match prev ws rest :
  forallb is_space ws = true ->
  match_at DOCUMENTCLASS_OPTS prev ($"\documentclass" ++ ws ++ "{"%char :: rest) = None /\
  exists cs,
    match_at DOCUMENTCLASS_BARE prev ($"\documentclass" ++ ws ++ "{"%char :: rest)
      = Some (cs, rest) /\
    group cs 1 = $"\documentclass" /\ group cs 2 = $"{".
Proof.
  intro Hw. unfold match_at, DOCUMENTCLASS_OPTS, DOCUMENTCLASS_BARE, Star.
  cbn [m]. rewrite !m_Str, startswith_app, skipn_length_app. split.
  - match goal with |- ?x = None => destruct x as [[cs r]|] eqn:E end; [|reflexivity].
    exfalso. apply rep_sound in E. destruct E as (a & b & E & Ha & _ & _ & H).
    cbn [m Lit] in H. destruct b as [|c b]; [discriminate|].
    destruct (Ascii.eqb_spec "[" c) as [<-|]; [|discriminate].
    symmetry in E. exact (blanks_then_brace a b ws rest Ha Hw E).
  - eexists. split.
    + apply rep_greedy; [exact Hw|lia|exact I| |right; right; eexists _, _; split; reflexivity].
      cbn [m Lit]. rewrite Ascii.eqb_refl. reflexivity.
    + unfold group, set_cap. cbn [Nat.eqb].
      replace (List.length ($"\documentclass" ++ ws ++ "{"%char :: rest)
               - List.length (ws ++ "{"%char :: rest))
        with (List.length $"\documentclass")
        by (rewrite length_app; lia).
      rewrite firstn_length_app.
      split; [reflexivity|].
      replace (List.length ("{"%char :: rest) - List.length rest) with 1
        by (change (List.length ("{"%char :: rest)) with (S (List.length rest)); lia).
      reflexivity.
Qed.

(** X12. On a line that begins with [\documentclass], blanks and an
    opening bracket, [onecolumn,] is put right after the bracket; on one
    that begins with [\documentclass], blanks and an opening brace, the
    blanks are dropped and [[onecolumn]] is put before the brace.  The
    rest of the line, which holds no further [\documentclass], is kept as
    it is. *)
Theorem add_onecolumn_general (ws rest : str) :
  forallb is_space ws = true ->
  contains $"\documentclass" rest = false ->
  add_onecolumn ($"\documentclass" ++ ws ++ $"[" ++ rest) =
    $"\documentclass" ++ ws ++ $"[onecolumn," ++ rest /\
  add_onecolumn ($"\documentclass" ++ ws ++ $"{" ++ rest) =
    $"\documentclass[onecolumn]{" ++ rest.
Proof.
  intros Hw Hr. unfold add_onecolumn, search, sub. split.
  - change ($"[" ++ rest) with ("["%char :: rest).
    destruct (documentclass_opts_match None ws rest Hw) as [H1 H2].
    assert (E : search_from DOCUMENTCLASS_OPTS None
                  ($"\documentclass" ++ ws ++ "["%char :: rest) = Some (no_caps, rest)).
    { cbn [app list_ascii_of_string search_from string_of_list_ascii].
      change ("\"%char :: _) with ($"\documentclass" ++ ws ++ "["%char :: rest).
      rewrite H1. reflexivity. }
    rewrite E.
    replace ($"\documentclass" ++ ws ++ "["%char :: rest)
      with (($"\documentclass" ++ ws ++ ["["%char]) ++ rest) in *
      by (rewrite <- !app_assoc; reflexivity).
    assert (Hne : $"\documentclass" ++ ws ++ ["["%char] <> []) by (intro Hn; discriminate Hn).
    rewrite (sub_from_match _ _ _ _ _ _ Hne H2).
    rewrite (sub_unchanged _ _ _ _ documentclass_opts_g_begins Hr).
    unfold group, set_cap. cbn [Nat.eqb]. rewrite <- !app_assoc. reflexivity.
  - change ($"{" ++ rest) with ("{"%char :: rest).
    destruct (documentclass_bare_match None ws rest Hw) as (H1 & cs & H2 & G1 & G2).
    assert (E : search_from DOCUMENTCLASS_OPTS None
                  ($"\documentclass" ++ ws ++ "{"%char :: rest) = None).
    { cbn [app list_ascii_of_string search_from string_of_list_ascii].
      apply orelse_none. split; [exact H1|].
      apply (search_from_none _ _ _ documentclass_opts_begins).
      change (contains $"\documentclass" ($"documentclass" ++ ws ++ "{"%char :: rest) = false).
      rewrite app_assoc.
      replace (($"documentclass" ++ ws) ++ "{"%char :: rest)
        with (($"documentclass" ++ ws ++ ["{"%char]) ++ rest)
        by (rewrite <- !app_assoc; reflexivity).
      change (contains $"\documentclass") with (contains ("\"%char :: $"documentclass")).
      rewrite contains_after; [exact Hr|].
      intro Hin. apply in_app_or in Hin. destruct Hin as [Hin|Hin].
      - simpl in Hin. repeat (destruct Hin as [Hin|Hin]; [discriminate|]). contradiction.
      - apply in_app_or in Hin. destruct Hin as [Hin|Hin].
        + exact (blanks_have_no_backslash ws Hw Hin).
        + simpl in Hin. destruct Hin as [Hin|[]]. discriminate. }
    rewrite E.
    replace ($"\documentclass" ++ ws ++ "{"%char :: rest)
      with (($"\documentclass" ++ ws ++ ["{"%char]) ++ rest) in *
      by (rewrite <- !app_assoc; reflexivity).
    assert (Hne : $"\documentclass" ++ ws ++ ["{"%char] <> []) by (intro Hn; discriminate Hn).
    rewrite (sub_from_match _ _ _ _ _ _ Hne H2).
    rewrite (sub_unchanged _ _ _ _ documentclass_bare_begins Hr).
    rewrite G1, G2. rewrite <- !app_assoc. reflexivity.
Qed.

Lemma add_onecolumn_general_example :
  add_onecolumn ($"\documentclass" ++ $" " ++ $"[" ++ $"draft]{article}") =
    $"\documentclass" ++ $" " ++ $"[onecolumn," ++ $"draft]{article}" /\
  add_onecolumn ($"\documentclass" ++ $" " ++ $"{" ++ $"draft]{article}") =
    $"\documentclass[onecolumn]{" ++ $"draft]{article}".
Proof.
  apply (add_onecolumn_general $" " $"draft]{article}"); reflexivity.
Defined.

(** ** [\twocolumn] in the lines of the main file *)

Lemma lstrip_blanks ws c r :
  forallb is_space ws = true -> is_space c = false -> lstrip (ws ++ c :: r) = c :: r.
Proof.
  intros Hw Hc. induction ws as [|w ws IH]; simpl.
  - rewrite Hc. reflexivity.
  - simpl in Hw. apply andb_true_iff in Hw. destruct Hw as [-> Hw]. exact (IH Hw).
Qed.

Lemma bracket_unwrapped ws content :
  forallb is_space ws = true ->
  slice_1_m1 (strip (ws ++ $"[" ++ content ++ $"]")) = content.
Proof.
  intro Hw. unfold strip, rstrip, slice_1_m1.
  change (ws ++ $"[" ++ content ++ $"]") with (ws ++ "["%char :: content ++ ["]"%char]).
  rewrite (lstrip_blanks ws "[" _ Hw eq_refl).
  change ("["%char :: content ++ ["]"%char]) with (("["%char :: content) ++ ["]"%char]).
  rewrite rev_unit.
  replace (lstrip ("]"%char :: rev ("["%char :: content)))
    with ("]"%char :: rev ("["%char :: content)) by reflexivity.
  rewrite <- rev_unit, rev_involutive. simpl app. simpl tl.
  apply removelast_last.
Qed.

Lemma twocolumn_bracket_match prev ws content post :
  forallb is_space ws = true ->
  forallb (none_of $"]") content = true ->
  match_at TWOCOLUMN prev (($"\twocolumn" ++ ws ++ $"[" ++ content ++ $"]") ++ post)
    = Some (set_cap 1 (ws ++ $"[" ++ content ++ $"]") no_caps, post).
Proof.
  intros Hw Hc. unfold match_at, TWOCOLUMN, Opt, bracketed, Star.
  rewrite <- !app_assoc.
  cbn [m]. rewrite !m_Str, startswith_app, skipn_length_app.
  match goal with |- orelse ?a _ = _ => assert (E : a = Some (set_cap 1 (ws ++ $"[" ++ content ++ $"]") no_caps, post)) end.
  { change ($"[" ++ content ++ $"]" ++ post) with ("["%char :: content ++ "]"%char :: post).
    apply rep_greedy; [exact Hw|lia|exact I| |right; right; eexists _, _; split; reflexivity].
    cbn [m Lit]. rewrite Ascii.eqb_refl.
    apply rep_greedy; [exact Hc|lia|exact I| |right; right; eexists _, _; split; reflexivity].
    cbn [m Lit]. rewrite Ascii.eqb_refl. f_equal. f_equal. f_equal.
    replace (ws ++ "["%char :: content ++ "]"%char :: post)
      with ((ws ++ $"[" ++ content ++ $"]") ++ post)
      by (rewrite <- !app_assoc; reflexivity).
    apply firstn_consumed. }
  rewrite E. reflexivity.
Qed.

Lemma twocolumn_bare_match prev post :
  match post with [] => True | c :: _ => is_space c = false /\ c <> "["%char end ->
  match_at TWOCOLUMN prev ($"\twocolumn" ++ post) = Some (no_caps, post).
Proof.
  intro Hp. unfold match_at, TWOCOLUMN, Opt, bracketed, Star.
  cbn [m]. rewrite !m_Str, startswith_app, skipn_length_app.
  match goal with |- orelse ?a _ = _ => assert (E : a = None) end.
  { match goal with |- ?x = None => destruct x as [[cs r]|] eqn:E end; [|reflexivity].
    exfalso. apply rep_sound in E. destruct E as (a & b & E & Ha & _ & _ & H).
    cbn [m Lit] in H. destruct b as [|c b]; [discriminate|].
    destruct (Ascii.eqb_spec "[" c) as [<-|]; [|discriminate].
    destruct a as [|x a].
    - simpl in E. subst post. destruct Hp as [_ Hp]. apply Hp. reflexivity.
    - simpl in E. subst post. destruct Hp as [Hp _]. simpl in Ha.
      rewrite Hp in Ha. discriminate. }
  rewrite E. reflexivity.
Qed.

Lemma no_backslash_no_start pre X lit :
  ~ In "\"%char pre ->
  forall a b, pre = a ++ b -> b <> [] -> startswith ("\"%char :: lit) (b ++ X) = false.
Proof.
  intros Hn a b E Hb. destruct b as [|c b]; [congruence|].
  simpl app. cbn [startswith]. destruct (Ascii.eqb_spec "\"%char c) as [<-|_]; [|reflexivity].
  exfalso. apply Hn. rewrite E. apply in_or_app. right. left. reflexivity.
Qed.

(** X13. In a line of the main file without [\newgeometry], a
    [\twocolumn] that is the first backslash of the line and the last
    [\twocolumn] of it becomes [\onecolumn]; when blanks and a bracketed
    argument follow it, a blank and the content of the argument, without
    the blanks and the brackets, are put after [\onecolumn]; when the text
    after it begins neither with a blank nor with a bracket, nothing else
    changes. *)
Theorem twocolumn_line_rewritten (pre ws content post : str) :
  ~ In "\"%char pre ->
  forallb is_space ws = true ->
  forallb (none_of $"]") content = true ->
  contains $"\twocolumn" post = false ->
  (contains $"\newgeometry" (pre ++ $"\twocolumn" ++ ws ++ $"[" ++ content ++ $"]" ++ post) = false ->
   rewrite_line (pre ++ $"\twocolumn" ++ ws ++ $"[" ++ content ++ $"]" ++ post) =
     pre ++ $"\onecolumn " ++ content ++ post) /\
  (contains $"\newgeometry" (pre ++ $"\twocolumn" ++ post) = false ->
   match post with [] => True | c :: _ => is_space c = false /\ c <> "["%char end ->
   rewrite_line (pre ++ $"\twocolumn" ++ post) = pre ++ $"\onecolumn" ++ post).
Proof.
  intros Hpre Hw Hc Hpost. split.
  - intro Hg. unfold rewrite_line, sub. cbv zeta.
    rewrite (sub_unchanged _ _ _ _ newgeometry_begins_literal Hg).
    replace ($"\twocolumn" ++ ws ++ $"[" ++ content ++ $"]" ++ post)
      with (($"\twocolumn" ++ ws ++ $"[" ++ content ++ $"]") ++ post)
      by (rewrite <- !app_assoc; reflexivity).
    rewrite (sub_from_copies TWOCOLUMN replace_twocolumn_tex (startswith $"\twocolumn") _
               twocolumn_begins_literal pre None
               (no_backslash_no_start pre _ $"twocolumn" Hpre)).
    f_equal.
    assert (Hne : $"\twocolumn" ++ ws ++ $"[" ++ content ++ $"]" <> [])
      by (intro Hn; discriminate Hn).
    rewrite (sub_from_match _ _ _ _ _ _ Hne (twocolumn_bracket_match _ ws content post Hw Hc)).
    rewrite (sub_unchanged _ _ _ _ twocolumn_begins_literal Hpost).
    unfold replace_twocolumn_tex, group_true, set_cap. cbn [Nat.eqb].
    destruct (ws ++ $"[" ++ content ++ $"]") as [|c g] eqn:E.
    { destruct ws; discriminate E. }
    rewrite <- E, (bracket_unwrapped ws content Hw).
    rewrite <- !app_assoc. reflexivity.
  - intros Hg Hp. unfold rewrite_line, sub. cbv zeta.
    rewrite (sub_unchanged _ _ _ _ newgeometry_begins_literal Hg).
    rewrite (sub_from_copies TWOCOLUMN replace_twocolumn_tex (startswith $"\twocolumn") _
               twocolumn_begins_literal pre None
               (no_backslash_no_start pre _ $"twocolumn" Hpre)).
    f_equal.
    assert (Hne : $"\twocolumn" <> []) by (intro Hn; discriminate Hn).
    rewrite (sub_from_match _ _ _ _ _ _ Hne (twocolumn_bare_match _ post Hp)).
    rewrite (sub_unchanged _ _ _ _ twocolumn_begins_literal Hpost).
    reflexivity.
Qed.

Lemma twocolumn_line_rewritten_example :
  rewrite_line ($"  " ++ $"\twocolumn" ++ $" " ++ $"[" ++ $"\maketitle" ++ $"]" ++ $" % title") =
    $"  " ++ $"\onecolumn " ++ $"\maketitle" ++ $" % title" /\
  rewrite_line ($"  " ++ $"\twocolumn" ++ $"{}") = $"  " ++ $"\onecolumn" ++ $"{}".
Proof.
  destruct (twocolumn_line_rewritten $"  " $" " $"\maketitle" $" % title") as [H _];
    [simpl; intuition discriminate|reflexivity|reflexivity|reflexivity|].
  destruct (twocolumn_line_rewritten $"  " $" " $"\maketitle" $"{}") as [_ H'];
    [simpl; intuition discriminate|reflexivity|reflexivity|reflexivity|].
  split; [apply H; reflexivity|apply H'; [reflexivity|split; [reflexivity|discriminate]]].
Defined.
